(** * Thrift struct codec of openr: KnownKeys and CurveKeyPair

    Shallow embedding of [openr/KnownKeys/ttypes.py].  The generated struct
    classes talk to a Thrift protocol object; the protocol and the transport
    are collaborators of the code, so the struct code is embedded once, over
    an interface ([TProtocol]), and instantiated with a reference protocol
    whose wire is the sequence of protocol items.  The link monitor commands
    of [openr/cli/commands/lm.py] follow in [Module LM], over the lines they
    print and the calls they make on the client. *)

From stdpp Require Import base option list gmap strings pretty sorting.
From Stdlib Require Import ZArith NArith Lia String Ascii.

Local Open Scope Z_scope.

(** ** Python values that appear in the structs *)

(** [bytes] objects: a sequence of 8-bit characters. *)
Abbreviation bytes := string.

(** [str] objects: a sequence of code points. *)
Abbreviation text := (list N).

(** What a map key can be at run time: the writer tests
    [isinstance(kiter9, bytes)]. *)
Inductive pystr : Type :=
| PyStr (s : text)
| PyBytes (b : bytes).

#[global] Instance pystr_eq_dec : EqDecision pystr.
Proof. solve_decision. Defined.

#[global] Instance pystr_countable : Countable pystr.
Proof.
  refine (inj_countable'
            (fun k => match k with PyStr s => inl s | PyBytes b => inr b end)
            (fun x => match x with inl s => PyStr s | inr b => PyBytes b end) _).
  intros []; reflexivity.
Defined.

Definition isinstance_bytes (k : pystr) : bool :=
  match k with PyBytes _ => true | PyStr _ => false end.

(** ** thrift.Thrift.TType *)

Inductive TType : Type :=
| STOP | VOID | BOOL | BYTE | DOUBLE | I16 | I32 | I64
| STRING | STRUCT | MAP | SET | LIST | UTF8 | UTF16 | FLOAT.

#[global] Instance TType_eq_dec : EqDecision TType.
Proof. solve_decision. Defined.

Definition TType_eqb (a b : TType) : bool := bool_decide (a = b).

(** ** Exceptions and outcomes *)

Inductive TProtocolException_type : Type :=
| UNKNOWN | INVALID_DATA | NEGATIVE_SIZE | SIZE_LIMIT | BAD_VERSION
| INVALID_PROTOCOL | MISSING_REQUIRED_FIELD.

Inductive exn : Type :=
| TProtocolException (type : TProtocolException_type) (message : string)
| UnicodeDecodeError
| UnicodeEncodeError
| AttributeError
| TypeError
| EOFError.

(** Outcome of running a piece of code: a value, a raised exception, or
    [OutOfFuel] when the bound put on a [while] loop was too small. *)
Inductive result (A : Type) : Type :=
| Ok (a : A)
| Raise (e : exn)
| OutOfFuel.
Arguments Ok {A} a.
Arguments Raise {A} e.
Arguments OutOfFuel {A}.

(** State and exception monad: [S] is the mutable state a call works on. *)
Definition M (S A : Type) : Type := S -> result (A * S).

Definition ret {S A} (a : A) : M S A := fun s => Ok (a, s).

Definition bind {S A B} (m : M S A) (k : A -> M S B) : M S B :=
  fun s =>
    match m s with
    | Ok (a, s') => k a s'
    | Raise e => Raise e
    | OutOfFuel => OutOfFuel
    end.

Definition raise {S A} (e : exn) : M S A := fun _ => Raise e.

Definition out_of_fuel {S A} : M S A := fun _ => OutOfFuel.

Definition lift_result {S A} (r : result A) : M S A :=
  fun s =>
    match r with
    | Ok a => Ok (a, s)
    | Raise e => Raise e
    | OutOfFuel => OutOfFuel
    end.

Declare Scope py_scope.
Delimit Scope py_scope with py.
Notation "x <- m ;; k" := (bind m (fun x => k))
  (at level 100, m at next level, k at level 200, right associativity) : py_scope.
Notation "m ;; k" := (bind m (fun _ => k))
  (at level 100, k at level 200, right associativity) : py_scope.
Local Open Scope py_scope.

(** [for _ in range(n): body] *)
Fixpoint for_range_nat {S} (n : nat) (body : M S unit) : M S unit :=
  match n with
  | O => ret tt
  | Datatypes.S n' => body ;; for_range_nat n' body
  end.

Definition for_range {S} (n : Z) (body : M S unit) : M S unit :=
  for_range_nat (Z.to_nat n) body.

(** [for x in xs: body x] *)
Fixpoint for_each {S A} (xs : list A) (body : A -> M S unit) : M S unit :=
  match xs with
  | [] => ret tt
  | x :: xs' => body x ;; for_each xs' body
  end.

(** [while cond(): body], bounded by [fuel] iterations. *)
Fixpoint while_ {S} (fuel : nat) (cond : M S bool) (body : M S unit) : M S unit :=
  match fuel with
  | O => out_of_fuel
  | Datatypes.S fuel' =>
      c <- cond ;;
      if c then body ;; while_ fuel' cond body else ret tt
  end.

(** A method works on the pair of [self] and the protocol object. *)
Definition on_prot {Self P A} (m : M P A) : M (Self * P) A :=
  fun '(self, p) =>
    match m p with
    | Ok (a, p') => Ok (a, (self, p'))
    | Raise e => Raise e
    | OutOfFuel => OutOfFuel
    end.

Definition get_self {Self P} : M (Self * P) Self :=
  fun '(self, p) => Ok (self, (self, p)).

Definition set_self {Self P} (self' : Self) : M (Self * P) unit :=
  fun '(_, p) => Ok (tt, (self', p)).

(** ** The built-in UTF-8 codec: [str.encode('utf-8')], [bytes.decode('utf-8')] *)

(** The codec of the interpreter, strict error handling: one to four bytes
    per code point, no surrogates, no overlong forms, nothing above
    U+10FFFF. *)

Definition utf8_encode_cp (c : N) : option (list N) :=
  (if c <? 0x80 then Some [c]
   else if c <? 0x800 then Some [0xC0 + c / 64; 0x80 + c mod 64]
   else if c <? 0x10000 then
     if (0xD800 <=? c) && (c <=? 0xDFFF) then None
     else Some [0xE0 + c / 4096; 0x80 + (c / 64) mod 64; 0x80 + c mod 64]
   else if c <? 0x110000 then
     Some [0xF0 + c / 262144; 0x80 + (c / 4096) mod 64;
           0x80 + (c / 64) mod 64; 0x80 + c mod 64]
   else None)%N.

Fixpoint utf8_encode_list (s : text) : option (list N) :=
  match s with
  | [] => Some []
  | c :: s' =>
      match utf8_encode_cp c, utf8_encode_list s' with
      | Some bs, Some rest => Some (bs ++ rest)
      | _, _ => None
      end
  end.

Definition is_continuation (b : N) : bool := ((0x80 <=? b) && (b <=? 0xBF))%N.

Fixpoint utf8_decode_list (bs : list N) : option text :=
  match bs with
  | [] => Some []
  | b0 :: r0 =>
      (if b0 <? 0x80 then cons b0 <$> utf8_decode_list r0
       else if (0xC2 <=? b0) && (b0 <=? 0xDF) then
         match r0 with
         | b1 :: r1 =>
             if is_continuation b1
             then cons ((b0 - 0xC0) * 64 + (b1 - 0x80)) <$> utf8_decode_list r1
             else None
         | _ => None
         end
       else if (0xE0 <=? b0) && (b0 <=? 0xEF) then
         match r0 with
         | b1 :: b2 :: r2 =>
             let c := (b0 - 0xE0) * 4096 + (b1 - 0x80) * 64 + (b2 - 0x80) in
             if is_continuation b1 && is_continuation b2
                && (0x800 <=? c) && negb ((0xD800 <=? c) && (c <=? 0xDFFF))
             then cons c <$> utf8_decode_list r2
             else None
         | _ => None
         end
       else if (0xF0 <=? b0) && (b0 <=? 0xF4) then
         match r0 with
         | b1 :: b2 :: b3 :: r3 =>
             let c := (b0 - 0xF0) * 262144 + (b1 - 0x80) * 4096
                      + (b2 - 0x80) * 64 + (b3 - 0x80) in
             if is_continuation b1 && is_continuation b2 && is_continuation b3
                && (0x10000 <=? c) && (c <? 0x110000)
             then cons c <$> utf8_decode_list r3
             else None
         | _ => None
         end
       else None)%N
  end.

Fixpoint bytes_of_list (l : list N) : bytes :=
  match l with
  | [] => EmptyString
  | n :: l' => String (ascii_of_N n) (bytes_of_list l')
  end.

Fixpoint list_of_bytes (b : bytes) : list N :=
  match b with
  | EmptyString => []
  | String a b' => N_of_ascii a :: list_of_bytes b'
  end.

(** [s.encode('utf-8')] *)
Definition str_encode_utf8 (s : text) : result bytes :=
  match utf8_encode_list s with
  | Some l => Ok (bytes_of_list l)
  | None => Raise UnicodeEncodeError
  end.

(** [b.decode('utf-8')] *)
Definition bytes_decode_utf8 (b : bytes) : result text :=
  match utf8_decode_list (list_of_bytes b) with
  | Some s => Ok s
  | None => Raise UnicodeDecodeError
  end.

(** [k.encode('utf-8')] on a key: only [str] has the method. *)
Definition encode_utf8 (k : pystr) : result bytes :=
  match k with
  | PyStr s => str_encode_utf8 s
  | PyBytes _ => Raise AttributeError
  end.

(** ** The protocol object, as the struct code uses it *)

(** [thrift.protocol.THeaderProtocol.THeaderProtocol.T_BINARY_PROTOCOL] and
    [T_COMPACT_PROTOCOL]. *)
Definition T_BINARY_PROTOCOL : Z := 0.
Definition T_COMPACT_PROTOCOL : Z := 2.

Class TProtocol (P : Type) : Type := {
  (* isinstance(prot, TBinaryProtocol.TBinaryProtocolAccelerated) *)
  isinstance_TBinaryProtocolAccelerated : P -> bool;
  (* isinstance(prot, TCompactProtocol.TCompactProtocolAccelerated) *)
  isinstance_TCompactProtocolAccelerated : P -> bool;
  (* isinstance(prot, THeaderProtocol.THeaderProtocolAccelerate) *)
  isinstance_THeaderProtocolAccelerate : P -> bool;
  get_protocol_id : P -> Z;
  (* isinstance(prot.trans, TTransport.CReadableTransport) *)
  trans_isinstance_CReadableTransport : P -> bool;
  (* prot.trans.write(buf) *)
  trans_write : bytes -> M P unit;
  readStructBegin : M P unit;
  readStructEnd : M P unit;
  readFieldBegin : M P (option string * TType * Z);
  readFieldEnd : M P unit;
  readMapBegin : M P (TType * TType * Z);
  peekMap : M P bool;
  readMapEnd : M P unit;
  readString : M P bytes;
  skip : TType -> M P unit;
  writeStructBegin : string -> M P unit;
  writeStructEnd : M P unit;
  writeFieldBegin : string -> TType -> Z -> M P unit;
  writeFieldEnd : M P unit;
  writeFieldStop : M P unit;
  writeMapBegin : TType -> TType -> Z -> M P unit;
  writeMapEnd : M P unit;
  writeString : pystr -> M P unit;
}.

(** One entry of a [thrift_spec] tuple:
    [(id, type, name, type arguments, default, requiredness)]. *)
Inductive spec_args : Type :=
| ArgsNone
| ArgsBool (b : bool)
| ArgsMap (ktype : TType) (kargs : bool) (vtype : TType) (vargs : bool).

Record field_spec : Type := {
  spec_id : Z;
  spec_type : TType;
  spec_name : string;
  spec_targs : spec_args;
  spec_default : option pystr;
  spec_req : Z;
}.

Definition thrift_spec_t : Type := list (option field_spec).

(** [thrift.protocol.fastproto], for a struct class [Self]:
    [decode(self, trans, [cls, spec, False], utf8strings=..., protoid=...)] and
    [encode(self, [cls, spec, False], utf8strings=..., protoid=...)]. *)
Record Fastproto (Self P : Type) : Type := {
  decode : thrift_spec_t -> bool -> Z -> M (Self * P) unit;
  encode : Self -> thrift_spec_t -> bool -> Z -> result bytes;
}.
Arguments decode {Self P} _ _ _ _ _.
Arguments encode {Self P} _ _ _ _ _.

(** [sys.version_info.major]: the modules of the repository are Python 3. *)
Definition sys_version_info_major : Z := 3.

(** [UTF8STRINGS = bool(0) or sys.version_info.major >= 3] *)
Definition UTF8STRINGS : bool := false || (3 <=? sys_version_info_major).

Definition is_not_None {A} (o : option A) : bool :=
  match o with Some _ => true | None => false end.

(** ** class KnownKeys *)

Record KnownKeys : Type := mkKnownKeys {
  keys : option (gmap pystr bytes);
}.

(** [KnownKeys__init__(self, keys=None)] *)
Definition KnownKeys__init__ (keys : option (gmap pystr bytes)) : KnownKeys :=
  {| keys := keys |}.

Definition KnownKeys_thrift_spec : option thrift_spec_t :=
  Some [ None;
         Some {| spec_id := 1; spec_type := MAP; spec_name := "keys";
                 spec_targs := ArgsMap STRING true STRING false;
                 spec_default := None; spec_req := 0 |} ].

(** ** class CurveKeyPair *)

Record CurveKeyPair : Type := mkCurveKeyPair {
  privateKey : option bytes;
  publicKey : option bytes;
}.

(** [CurveKeyPair__init__(self, privateKey=None, publicKey=None)] *)
Definition CurveKeyPair__init__ (privateKey publicKey : option bytes) : CurveKeyPair :=
  {| privateKey := privateKey; publicKey := publicKey |}.

Definition CurveKeyPair_thrift_spec : option thrift_spec_t :=
  Some [ None;
         Some {| spec_id := 1; spec_type := STRING; spec_name := "privateKey";
                 spec_targs := ArgsBool false; spec_default := None; spec_req := 2 |};
         Some {| spec_id := 2; spec_type := STRING; spec_name := "publicKey";
                 spec_targs := ArgsBool false; spec_default := None; spec_req := 2 |} ].

(** An arbitrary Python object, as far as [__eq__] tells them apart. *)
Inductive pyobject : Type :=
| ObjKnownKeys (x : KnownKeys)
| ObjCurveKeyPair (x : CurveKeyPair)
| ObjOther.

Section KnownKeys_methods.
Context {P : Type} {prot : TProtocol P}.
(* the class attribute [thrift_spec] and the module global [fastproto] *)
Variable thrift_spec : option thrift_spec_t.
Variable fastproto : option (Fastproto KnownKeys P).
(* [d.items()]: the pairs of the dict object in [self.keys] in the order in
   which its keys were inserted, an order that the map [d] of its entries
   does not record.  The properties of the writer are stated for every such
   function, hence for every insertion order. *)
Variable dict_items : gmap pystr bytes -> list (pystr * bytes).

(** [self.keys = v] *)
Definition KnownKeys_set_keys (v : option (gmap pystr bytes)) : M (KnownKeys * P) unit :=
  fun '(self, p) => Ok (tt, ({| keys := v |}, p)).

(** [self.keys[k] = v] *)
Definition KnownKeys_keys_setitem (k : pystr) (v : bytes) : M (KnownKeys * P) unit :=
  self <- get_self ;;
  match keys self with
  | Some d => KnownKeys_set_keys (Some (<[k := v]> d))
  | None => raise TypeError
  end.

Definition KnownKeys_checkRequired : M (KnownKeys * P) unit :=
  self <- get_self ;;
  if negb (is_not_None (keys self))
  then raise (TProtocolException MISSING_REQUIRED_FIELD
                "Required field 'keys' was not found in serialized data! Struct: KnownKeys")
  else ret tt.

(** The key of a map entry:
    [iprot.readString().decode('utf-8') if UTF8STRINGS else iprot.readString()] *)
Definition KnownKeys_read_key : M (KnownKeys * P) pystr :=
  if UTF8STRINGS
  then b <- on_prot readString ;; s <- lift_result (bytes_decode_utf8 b) ;; ret (PyStr s)
  else b <- on_prot readString ;; ret (PyBytes b).

(** Body of both map loops (lines 66-68 and 71-73). *)
Definition KnownKeys_read_entry : M (KnownKeys * P) unit :=
  _key <- KnownKeys_read_key ;;
  _val <- on_prot readString ;;
  KnownKeys_keys_setitem _key _val.

(** Lines 62-74: field 1 with the wire type of the schema. *)
Definition KnownKeys_read_keys (fuel : nat) : M (KnownKeys * P) unit :=
  KnownKeys_set_keys (Some ∅) ;;
  mhdr <- on_prot readMapBegin ;;
  let '(_ktype1, _vtype2, _size0) := mhdr in
  (if 0 <=? _size0
   then for_range _size0 KnownKeys_read_entry
   else while_ fuel (on_prot peekMap) KnownKeys_read_entry) ;;
  on_prot readMapEnd.

(** Lines 60-78: the value of the field announced by a header. *)
Definition KnownKeys_read_field (fuel : nat) (ftype : TType) (fid : Z)
  : M (KnownKeys * P) unit :=
  if fid =? 1 then
    if TType_eqb ftype MAP then KnownKeys_read_keys fuel
    else on_prot (skip ftype)
  else on_prot (skip ftype).

(** The [while True] loop over the fields (lines 56-79). *)
Fixpoint KnownKeys_read_fields (fuel : nat) : M (KnownKeys * P) unit :=
  match fuel with
  | O => out_of_fuel
  | S fuel' =>
      hdr <- on_prot readFieldBegin ;;
      let '(fname, ftype, fid) := hdr in
      if TType_eqb ftype STOP then ret tt
      else
        KnownKeys_read_field fuel ftype fid ;;
        on_prot readFieldEnd ;;
        KnownKeys_read_fields fuel'
  end.

(** Lines 55-81: the generic reader. *)
Definition KnownKeys_read_generic (fuel : nat) : M (KnownKeys * P) unit :=
  on_prot readStructBegin ;;
  KnownKeys_read_fields fuel ;;
  on_prot readStructEnd ;;
  KnownKeys_checkRequired.

Definition accelerated_binary (prot : P) : bool :=
  isinstance_TBinaryProtocolAccelerated prot
  || (isinstance_THeaderProtocolAccelerate prot
      && (get_protocol_id prot =? T_BINARY_PROTOCOL)).

Definition accelerated_compact (prot : P) : bool :=
  isinstance_TCompactProtocolAccelerated prot
  || (isinstance_THeaderProtocolAccelerate prot
      && (get_protocol_id prot =? T_COMPACT_PROTOCOL)).

(** [fastproto.decode(self, iprot.trans, [self.__class__, self.thrift_spec, False],
                      utf8strings=UTF8STRINGS, protoid=protoid)] *)
Definition KnownKeys_fastproto_decode (protoid : Z) : M (KnownKeys * P) unit :=
  match fastproto, thrift_spec with
  | Some fp, Some spec => decode fp spec UTF8STRINGS protoid
  | _, _ => raise AttributeError
  end.

Definition KnownKeys_read (fuel : nat) : M (KnownKeys * P) unit :=
  fun '(self, iprot) =>
    if accelerated_binary iprot && trans_isinstance_CReadableTransport iprot
       && is_not_None thrift_spec && is_not_None fastproto
    then (KnownKeys_fastproto_decode 0 ;; KnownKeys_checkRequired) (self, iprot)
    else if accelerated_compact iprot && trans_isinstance_CReadableTransport iprot
            && is_not_None thrift_spec && is_not_None fastproto
    then (KnownKeys_fastproto_decode 2 ;; KnownKeys_checkRequired) (self, iprot)
    else KnownKeys_read_generic fuel (self, iprot).

(** Lines 101-102: one iteration of the loop over [self.keys.items()]. *)
Definition KnownKeys_write_entry (kv : pystr * bytes) : M (KnownKeys * P) unit :=
  let '(kiter9, viter10) := kv in
  (if UTF8STRINGS && negb (isinstance_bytes kiter9)
   then b <- lift_result (encode_utf8 kiter9) ;; on_prot (writeString (PyBytes b))
   else on_prot (writeString kiter9)) ;;
  on_prot (writeString (PyBytes viter10)).

(** Lines 96-106: the generic writer. *)
Definition KnownKeys_write_generic : M (KnownKeys * P) unit :=
  on_prot (writeStructBegin "KnownKeys") ;;
  self <- get_self ;;
  match keys self with
  | Some d =>
      on_prot (writeFieldBegin "keys" MAP 1) ;;
      on_prot (writeMapBegin STRING STRING (Z.of_nat (size d))) ;;
      for_each (dict_items d) KnownKeys_write_entry ;;
      on_prot writeMapEnd ;;
      on_prot writeFieldEnd
  | None => ret tt
  end ;;
  on_prot writeFieldStop ;;
  on_prot writeStructEnd.

(** [oprot.trans.write(fastproto.encode(self, [self.__class__, self.thrift_spec, False],
                                        utf8strings=UTF8STRINGS, protoid=protoid))] *)
Definition KnownKeys_fastproto_encode (protoid : Z) : M (KnownKeys * P) unit :=
  match fastproto, thrift_spec with
  | Some fp, Some spec =>
      self <- get_self ;;
      buf <- lift_result (encode fp self spec UTF8STRINGS protoid) ;;
      on_prot (trans_write buf)
  | _, _ => raise AttributeError
  end.

Definition KnownKeys_write : M (KnownKeys * P) unit :=
  fun '(self, oprot) =>
    if accelerated_binary oprot && is_not_None thrift_spec && is_not_None fastproto
    then KnownKeys_fastproto_encode 0 (self, oprot)
    else if accelerated_compact oprot && is_not_None thrift_spec && is_not_None fastproto
    then KnownKeys_fastproto_encode 2 (self, oprot)
    else KnownKeys_write_generic (self, oprot).

(** [__eq__]: [isinstance(other, self.__class__)], then the [__dict__]s are compared. *)
Definition KnownKeys___eq__ (self : KnownKeys) (other : pyobject) : bool :=
  match other with
  | ObjKnownKeys o => bool_decide (keys self = keys o)
  | _ => false
  end.

Definition KnownKeys___ne__ (self : KnownKeys) (other : pyobject) : bool :=
  negb (KnownKeys___eq__ self other).
End KnownKeys_methods.

Section CurveKeyPair_methods.
Context {P : Type} {prot : TProtocol P}.
Variable thrift_spec : option thrift_spec_t.
Variable fastproto : option (Fastproto CurveKeyPair P).

(** [self.privateKey = v] *)
Definition CurveKeyPair_set_privateKey (v : option bytes) : M (CurveKeyPair * P) unit :=
  fun '(self, p) => Ok (tt, ({| privateKey := v; publicKey := publicKey self |}, p)).

(** [self.publicKey = v] *)
Definition CurveKeyPair_set_publicKey (v : option bytes) : M (CurveKeyPair * P) unit :=
  fun '(self, p) => Ok (tt, ({| privateKey := privateKey self; publicKey := v |}, p)).

Definition CurveKeyPair_checkRequired : M (CurveKeyPair * P) unit := ret tt.

(** Lines 158-169: the value of the field announced by a header. *)
Definition CurveKeyPair_read_field (ftype : TType) (fid : Z)
  : M (CurveKeyPair * P) unit :=
  if fid =? 1 then
    if TType_eqb ftype STRING then
      v <- on_prot readString ;; CurveKeyPair_set_privateKey (Some v)
    else on_prot (skip ftype)
  else if fid =? 2 then
    if TType_eqb ftype STRING then
      v <- on_prot readString ;; CurveKeyPair_set_publicKey (Some v)
    else on_prot (skip ftype)
  else on_prot (skip ftype).

(** The [while True] loop over the fields (lines 154-170). *)
Fixpoint CurveKeyPair_read_fields (fuel : nat) : M (CurveKeyPair * P) unit :=
  match fuel with
  | O => out_of_fuel
  | S fuel' =>
      hdr <- on_prot readFieldBegin ;;
      let '(fname, ftype, fid) := hdr in
      if TType_eqb ftype STOP then ret tt
      else
        CurveKeyPair_read_field ftype fid ;;
        on_prot readFieldEnd ;;
        CurveKeyPair_read_fields fuel'
  end.

(** Lines 153-172: the generic reader. *)
Definition CurveKeyPair_read_generic (fuel : nat) : M (CurveKeyPair * P) unit :=
  on_prot readStructBegin ;;
  CurveKeyPair_read_fields fuel ;;
  on_prot readStructEnd ;;
  CurveKeyPair_checkRequired.

Definition CurveKeyPair_fastproto_decode (protoid : Z) : M (CurveKeyPair * P) unit :=
  match fastproto, thrift_spec with
  | Some fp, Some spec => decode fp spec UTF8STRINGS protoid
  | _, _ => raise AttributeError
  end.

Definition CurveKeyPair_read (fuel : nat) : M (CurveKeyPair * P) unit :=
  fun '(self, iprot) =>
    if accelerated_binary iprot && trans_isinstance_CReadableTransport iprot
       && is_not_None thrift_spec && is_not_None fastproto
    then (CurveKeyPair_fastproto_decode 0 ;; CurveKeyPair_checkRequired) (self, iprot)
    else if accelerated_compact iprot && trans_isinstance_CReadableTransport iprot
            && is_not_None thrift_spec && is_not_None fastproto
    then (CurveKeyPair_fastproto_decode 2 ;; CurveKeyPair_checkRequired) (self, iprot)
    else CurveKeyPair_read_generic fuel (self, iprot).

(** Lines 184-194: the generic writer. *)
Definition CurveKeyPair_write_generic : M (CurveKeyPair * P) unit :=
  on_prot (writeStructBegin "CurveKeyPair") ;;
  self <- get_self ;;
  match privateKey self with
  | Some v =>
      on_prot (writeFieldBegin "privateKey" STRING 1) ;;
      on_prot (writeString (PyBytes v)) ;;
      on_prot writeFieldEnd
  | None => ret tt
  end ;;
  match publicKey self with
  | Some v =>
      on_prot (writeFieldBegin "publicKey" STRING 2) ;;
      on_prot (writeString (PyBytes v)) ;;
      on_prot writeFieldEnd
  | None => ret tt
  end ;;
  on_prot writeFieldStop ;;
  on_prot writeStructEnd.

Definition CurveKeyPair_fastproto_encode (protoid : Z) : M (CurveKeyPair * P) unit :=
  match fastproto, thrift_spec with
  | Some fp, Some spec =>
      self <- get_self ;;
      buf <- lift_result (encode fp self spec UTF8STRINGS protoid) ;;
      on_prot (trans_write buf)
  | _, _ => raise AttributeError
  end.

Definition CurveKeyPair_write : M (CurveKeyPair * P) unit :=
  fun '(self, oprot) =>
    if accelerated_binary oprot && is_not_None thrift_spec && is_not_None fastproto
    then CurveKeyPair_fastproto_encode 0 (self, oprot)
    else if accelerated_compact oprot && is_not_None thrift_spec && is_not_None fastproto
    then CurveKeyPair_fastproto_encode 2 (self, oprot)
    else CurveKeyPair_write_generic (self, oprot).

Definition CurveKeyPair___eq__ (self : CurveKeyPair) (other : pyobject) : bool :=
  match other with
  | ObjCurveKeyPair o =>
      bool_decide (privateKey self = privateKey o)
      && bool_decide (publicKey self = publicKey o)
  | _ => false
  end.

Definition CurveKeyPair___ne__ (self : CurveKeyPair) (other : pyobject) : bool :=
  negb (CurveKeyPair___eq__ self other).
End CurveKeyPair_methods.

(** ** A reference protocol *)

(** Modelled from the spec: the protocol and transport objects are missing
    from the sources.  Their wire (section 6: field entries made of a type
    tag, a field id and a payload, ended by a STOP tag; map payloads made of
    two type tags and a signed count followed by the pairs, a negative count
    being ended by a peek) is kept as the sequence of items that the write
    calls produce and the read calls consume. *)
Inductive item : Type :=
| IStructBegin (name : string)
| IStructEnd
| IFieldBegin (name : string) (ftype : TType) (fid : Z)
| IFieldEnd
| IFieldStop
| IMapBegin (ktype vtype : TType) (size : Z)
| IMapEnd
| ISetBegin (etype : TType) (size : Z)
| ISetEnd
| IListBegin (etype : TType) (size : Z)
| IListEnd
| IScalar (ty : TType) (n : Z)
| IString (b : bytes)
| IRaw (b : bytes).

(** The class of a protocol object and of its transport. *)
Record protocol_class : Type := {
  is_TBinaryProtocolAccelerated : bool;
  is_TCompactProtocolAccelerated : bool;
  is_THeaderProtocolAccelerate : bool;
  header_protocol_id : Z;
  trans_is_CReadableTransport : bool;
}.

(** A protocol without acceleration on a plain memory buffer. *)
Definition plain_protocol : protocol_class :=
  {| is_TBinaryProtocolAccelerated := false;
     is_TCompactProtocolAccelerated := false;
     is_THeaderProtocolAccelerate := false;
     header_protocol_id := 0;
     trans_is_CReadableTransport := false |}.

Definition is_scalar (ty : TType) : bool :=
  match ty with
  | BOOL | BYTE | DOUBLE | I16 | I32 | I64 | FLOAT => true
  | _ => false
  end.

(** Modelled from the spec: the operations of the protocol object (section 6,
    "collaborator interface consumed") on this wire, and the generic skip of
    section 4.3. *)
Module Ref.
Definition emit (i : item) : M (list item) unit := fun p => Ok (tt, p ++ [i]).

(** Take the next item when [f] accepts it. *)
Definition take {A} (f : item -> option A) : M (list item) A :=
  fun p =>
    match p with
    | [] => Raise EOFError
    | i :: p' =>
        match f i with
        | Some a => Ok (a, p')
        | None => Raise (TProtocolException INVALID_DATA "unexpected item")
        end
    end.

Definition readStructBegin : M (list item) unit :=
  take (fun i => match i with IStructBegin _ => Some tt | _ => None end).
Definition readStructEnd : M (list item) unit :=
  take (fun i => match i with IStructEnd => Some tt | _ => None end).
Definition readFieldBegin : M (list item) (option string * TType * Z) :=
  take (fun i => match i with
                 | IFieldBegin name ftype fid => Some (Some name, ftype, fid)
                 | IFieldStop => Some (None, STOP, 0)
                 | _ => None
                 end).
Definition readFieldEnd : M (list item) unit :=
  take (fun i => match i with IFieldEnd => Some tt | _ => None end).
Definition readMapBegin : M (list item) (TType * TType * Z) :=
  take (fun i => match i with IMapBegin k v n => Some (k, v, n) | _ => None end).
Definition readMapEnd : M (list item) unit :=
  take (fun i => match i with IMapEnd => Some tt | _ => None end).
Definition readSetBegin : M (list item) (TType * Z) :=
  take (fun i => match i with ISetBegin e n => Some (e, n) | _ => None end).
Definition readSetEnd : M (list item) unit :=
  take (fun i => match i with ISetEnd => Some tt | _ => None end).
Definition readListBegin : M (list item) (TType * Z) :=
  take (fun i => match i with IListBegin e n => Some (e, n) | _ => None end).
Definition readListEnd : M (list item) unit :=
  take (fun i => match i with IListEnd => Some tt | _ => None end).
Definition readString : M (list item) bytes :=
  take (fun i => match i with IString b => Some b | _ => None end).
Definition readScalar (ty : TType) : M (list item) Z :=
  take (fun i => match i with
                 | IScalar ty' n => if TType_eqb ty ty' then Some n else None
                 | _ => None
                 end).

(** A peek looks at the next item and consumes nothing: more elements
    follow unless the container's end marker is next. *)
Definition peek (is_end : item -> bool) : M (list item) bool :=
  fun p =>
    match p with
    | [] => Raise EOFError
    | i :: _ => Ok (negb (is_end i), p)
    end.
Definition peekMap : M (list item) bool :=
  peek (fun i => match i with IMapEnd => true | _ => false end).
Definition peekSet : M (list item) bool :=
  peek (fun i => match i with ISetEnd => true | _ => false end).
Definition peekList : M (list item) bool :=
  peek (fun i => match i with IListEnd => true | _ => false end).

(** The fields of a skipped struct. *)
Fixpoint skip_fields (fuel : nat) (skip : TType -> M (list item) unit)
  : M (list item) unit :=
  match fuel with
  | O => out_of_fuel
  | S fuel' =>
      hdr <- readFieldBegin ;;
      let '(_, ftype, _) := hdr in
      if TType_eqb ftype STOP then ret tt
      else skip ftype ;; readFieldEnd ;; skip_fields fuel' skip
  end.

(** The elements of a skipped container, counted or ended by a peek. *)
Definition skip_elements (fuel : nat) (size : Z) (more : M (list item) bool)
  (body : M (list item) unit) : M (list item) unit :=
  if 0 <=? size then for_range size body else while_ fuel more body.

(** The generic skip: by wire type only, through nested containers. *)
Fixpoint skip_fuel (fuel : nat) (ty : TType) : M (list item) unit :=
  match fuel with
  | O => out_of_fuel
  | S fuel' =>
      match ty with
      | BOOL | BYTE | DOUBLE | I16 | I32 | I64 | FLOAT => readScalar ty ;; ret tt
      | STRING => readString ;; ret tt
      | STRUCT =>
          readStructBegin ;; skip_fields fuel' (skip_fuel fuel') ;; readStructEnd
      | MAP =>
          hdr <- readMapBegin ;;
          let '(ktype, vtype, size) := hdr in
          skip_elements fuel' size peekMap (skip_fuel fuel' ktype ;; skip_fuel fuel' vtype) ;;
          readMapEnd
      | SET =>
          hdr <- readSetBegin ;;
          let '(etype, size) := hdr in
          skip_elements fuel' size peekSet (skip_fuel fuel' etype) ;;
          readSetEnd
      | LIST =>
          hdr <- readListBegin ;;
          let '(etype, size) := hdr in
          skip_elements fuel' size peekList (skip_fuel fuel' etype) ;;
          readListEnd
      | _ => raise (TProtocolException INVALID_DATA "Unexpected type for skipping")
      end
  end.

(** Every step of a skip consumes an item, so the length of the input
    bounds the work. *)
Definition skip (ty : TType) : M (list item) unit :=
  fun p => skip_fuel (S (List.length p)) ty p.

Definition writeString (s : pystr) : M (list item) unit :=
  match s with
  | PyBytes b => emit (IString b)
  | PyStr _ => raise TypeError
  end.
End Ref.

(** Modelled from the spec: the reference protocol as a protocol object of
    class [c]. *)
#[local] Instance ref_protocol (c : protocol_class) : TProtocol (list item) := {|
  isinstance_TBinaryProtocolAccelerated := fun _ => is_TBinaryProtocolAccelerated c;
  isinstance_TCompactProtocolAccelerated := fun _ => is_TCompactProtocolAccelerated c;
  isinstance_THeaderProtocolAccelerate := fun _ => is_THeaderProtocolAccelerate c;
  get_protocol_id := fun _ => header_protocol_id c;
  trans_isinstance_CReadableTransport := fun _ => trans_is_CReadableTransport c;
  trans_write := fun b => Ref.emit (IRaw b);
  readStructBegin := Ref.readStructBegin;
  readStructEnd := Ref.readStructEnd;
  readFieldBegin := Ref.readFieldBegin;
  readFieldEnd := Ref.readFieldEnd;
  readMapBegin := Ref.readMapBegin;
  peekMap := Ref.peekMap;
  readMapEnd := Ref.readMapEnd;
  readString := Ref.readString;
  skip := Ref.skip;
  writeStructBegin := fun name => Ref.emit (IStructBegin name);
  writeStructEnd := Ref.emit IStructEnd;
  writeFieldBegin := fun name ty fid => Ref.emit (IFieldBegin name ty fid);
  writeFieldEnd := Ref.emit IFieldEnd;
  writeFieldStop := Ref.emit IFieldStop;
  writeMapBegin := fun k v n => Ref.emit (IMapBegin k v n);
  writeMapEnd := Ref.emit IMapEnd;
  writeString := Ref.writeString;
|}.

(** ** Well-formed wire data *)

(** A declared container size matches [n] elements: the count itself, or a
    negative size whose elements are ended by a peek. *)
Definition size_ok (size : Z) (n : nat) : Prop := size = Z.of_nat n \/ size < 0.

(** [payload ty pl]: the items [pl] are one value of wire type [ty]. *)
Inductive payload : TType -> list item -> Prop :=
| payload_scalar ty n :
    is_scalar ty = true -> payload ty [IScalar ty n]
| payload_string b :
    payload STRING [IString b]
| payload_struct name body :
    field_seq body ->
    payload STRUCT (IStructBegin name :: body ++ [IFieldStop; IStructEnd])
| payload_map ktype vtype size n body :
    size_ok size n -> entry_seq ktype vtype n body ->
    payload MAP (IMapBegin ktype vtype size :: body ++ [IMapEnd])
| payload_set etype size n body :
    size_ok size n -> elem_seq etype n body ->
    payload SET (ISetBegin etype size :: body ++ [ISetEnd])
| payload_list etype size n body :
    size_ok size n -> elem_seq etype n body ->
    payload LIST (IListBegin etype size :: body ++ [IListEnd])
with field_seq : list item -> Prop :=
| field_seq_nil : field_seq []
| field_seq_cons name ty fid pl rest :
    payload ty pl -> field_seq rest ->
    field_seq (IFieldBegin name ty fid :: pl ++ IFieldEnd :: rest)
with entry_seq : TType -> TType -> nat -> list item -> Prop :=
| entry_seq_nil ktype vtype : entry_seq ktype vtype 0 []
| entry_seq_cons ktype vtype n k v rest :
    payload ktype k -> payload vtype v -> entry_seq ktype vtype n rest ->
    entry_seq ktype vtype (S n) (k ++ v ++ rest)
with elem_seq : TType -> nat -> list item -> Prop :=
| elem_seq_nil etype : elem_seq etype 0 []
| elem_seq_cons etype n e rest :
    payload etype e -> elem_seq etype n rest ->
    elem_seq etype (S n) (e ++ rest).

Scheme payload_mind := Minimality for payload Sort Prop
  with field_seq_mind := Minimality for field_seq Sort Prop
  with entry_seq_mind := Minimality for entry_seq Sort Prop
  with elem_seq_mind := Minimality for elem_seq Sort Prop.
Combined Scheme wire_mutind
  from payload_mind, field_seq_mind, entry_seq_mind, elem_seq_mind.

(** An item that ends a container. *)
Definition is_end_marker (i : item) : bool :=
  match i with
  | IMapEnd | ISetEnd | IListEnd => true
  | _ => false
  end.

(** A struct on the wire: its field entries, then STOP. *)
Definition struct_stream (name : string) (body : list item) : list item :=
  IStructBegin name :: body ++ [IFieldStop; IStructEnd].

Definition field_entry (name : string) (ty : TType) (fid : Z) (pl : list item)
  : list item :=
  IFieldBegin name ty fid :: pl ++ [IFieldEnd].

(** The pairs of a map from strings to strings. *)
Fixpoint string_pairs (pairs : list (bytes * bytes)) : list item :=
  match pairs with
  | [] => []
  | (k, v) :: pairs' => IString k :: IString v :: string_pairs pairs'
  end.

Definition map_payload (ktype vtype : TType) (size : Z) (pairs : list (bytes * bytes))
  : list item :=
  IMapBegin ktype vtype size :: string_pairs pairs ++ [IMapEnd].

(** A field entry of arbitrary wire type. *)
Record wire_field : Type := {
  wf_name : string;
  wf_type : TType;
  wf_id : Z;
  wf_payload : list item;
}.

Definition wire_field_items (f : wire_field) : list item :=
  field_entry (wf_name f) (wf_type f) (wf_id f) (wf_payload f).

Definition wire_field_ok (f : wire_field) : Prop :=
  payload (wf_type f) (wf_payload f).

(** *** Streams of KnownKeys *)

(** A field entry of a KnownKeys stream: field 1 carrying a map of strings,
    or an entry that the schema does not expect. *)
Inductive KnownKeys_field : Type :=
| KeysField (name : string) (ktype vtype : TType) (size : Z) (pairs : list (bytes * bytes))
| OtherField (f : wire_field).

Definition KnownKeys_field_items (f : KnownKeys_field) : list item :=
  match f with
  | KeysField name ktype vtype size pairs =>
      field_entry name MAP 1 (map_payload ktype vtype size pairs)
  | OtherField f => wire_field_items f
  end.

Definition KnownKeys_field_ok (f : KnownKeys_field) : Prop :=
  match f with
  | KeysField _ _ _ size pairs => size_ok size (List.length pairs)
  | OtherField f => wire_field_ok f /\ (wf_id f <> 1 \/ wf_type f <> MAP)
  end.

(** The entries of a decoded map, in the order of the wire. *)
Fixpoint KnownKeys_entries (pairs : list (bytes * bytes)) (d : gmap pystr bytes)
  : result (gmap pystr bytes) :=
  match pairs with
  | [] => Ok d
  | (k, v) :: pairs' =>
      match bytes_decode_utf8 k with
      | Ok s => KnownKeys_entries pairs' (<[PyStr s := v]> d)
      | Raise e => Raise e
      | OutOfFuel => OutOfFuel
      end
  end.

(** What a sequence of field entries does to an instance. *)
Fixpoint KnownKeys_absorb (fs : list KnownKeys_field) (self : KnownKeys)
  : result KnownKeys :=
  match fs with
  | [] => Ok self
  | KeysField _ _ _ _ pairs :: fs' =>
      match KnownKeys_entries pairs ∅ with
      | Ok d => KnownKeys_absorb fs' {| keys := Some d |}
      | Raise e => Raise e
      | OutOfFuel => OutOfFuel
      end
  | OtherField _ :: fs' => KnownKeys_absorb fs' self
  end.

(** *** Streams of CurveKeyPair *)

Definition CurveKeyPair_absorb_field (f : wire_field) (self : CurveKeyPair)
  : CurveKeyPair :=
  match wf_type f, wf_payload f with
  | STRING, [IString b] =>
      if wf_id f =? 1 then {| privateKey := Some b; publicKey := publicKey self |}
      else if wf_id f =? 2 then {| privateKey := privateKey self; publicKey := Some b |}
      else self
  | _, _ => self
  end.

Definition CurveKeyPair_absorb (fs : list wire_field) (self : CurveKeyPair)
  : CurveKeyPair :=
  fold_left (fun x f => CurveKeyPair_absorb_field f x) fs self.

(** The items the generic writers produce. *)
Definition CurveKeyPair_items (x : CurveKeyPair) : list item :=
  struct_stream "CurveKeyPair"
    (match privateKey x with
     | Some v => field_entry "privateKey" STRING 1 [IString v]
     | None => []
     end ++
     match publicKey x with
     | Some v => field_entry "publicKey" STRING 2 [IString v]
     | None => []
     end).

(** The pairs of a map as the writer sends them: [None] when a key cannot
    be sent ([str] keys must encode, the protocol takes [bytes]). *)
Fixpoint KnownKeys_wire_pairs (kvs : list (pystr * bytes)) : option (list (bytes * bytes)) :=
  match kvs with
  | [] => Some []
  | (PyStr s, v) :: kvs' =>
      match utf8_encode_list s, KnownKeys_wire_pairs kvs' with
      | Some l, Some r => Some ((bytes_of_list l, v) :: r)
      | _, _ => None
      end
  | (PyBytes b, v) :: kvs' =>
      match KnownKeys_wire_pairs kvs' with
      | Some r => Some ((b, v) :: r)
      | None => None
      end
  end.

Definition KnownKeys_items (pairs : option (list (bytes * bytes))) : list item :=
  struct_stream "KnownKeys"
    (match pairs with
     | Some ps =>
         field_entry "keys" MAP 1
           (map_payload STRING STRING (Z.of_nat (List.length ps)) ps)
     | None => []
     end).

(** The keys of a map are all [str] objects that UTF-8 can encode. *)
Definition text_keys (d : gmap pystr bytes) : Prop :=
  forall k v, d !! k = Some v ->
    exists s, k = PyStr s /\ utf8_encode_list s <> None.

(** ** Statements and outcomes used by the proofs *)

(** What the generic skip has to do on each kind of well-formed data. *)
Definition skip_payload_stmt (ty : TType) (pl : list item) : Prop :=
  forall fuel rest, (List.length pl < fuel)%nat ->
    Ref.skip_fuel fuel ty (pl ++ rest) = Ok (tt, rest).

Definition skip_fields_stmt (body : list item) : Prop :=
  forall f1 f2 rest, (List.length body < f1)%nat -> (List.length body < f2)%nat ->
    Ref.skip_fields f1 (Ref.skip_fuel f2) (body ++ IFieldStop :: rest) = Ok (tt, rest).

Definition skip_entries_stmt (ktype vtype : TType) (n : nat) (body : list item) : Prop :=
  forall f rest, (List.length body < f)%nat ->
    for_range_nat n (Ref.skip_fuel f ktype ;; Ref.skip_fuel f vtype) (body ++ rest)
    = Ok (tt, rest)
    /\ forall f1, (List.length body < f1)%nat ->
         while_ f1 Ref.peekMap (Ref.skip_fuel f ktype ;; Ref.skip_fuel f vtype)
           (body ++ IMapEnd :: rest) = Ok (tt, IMapEnd :: rest).

Definition skip_elems_stmt (etype : TType) (n : nat) (body : list item) : Prop :=
  forall f rest, (List.length body < f)%nat ->
    for_range_nat n (Ref.skip_fuel f etype) (body ++ rest) = Ok (tt, rest)
    /\ forall f1 is_end e,
         (List.length body < f1)%nat -> is_end_marker e = true -> is_end e = true ->
         (forall i, is_end_marker i = false -> is_end i = false) ->
         while_ f1 (Ref.peek is_end) (Ref.skip_fuel f etype) (body ++ e :: rest)
         = Ok (tt, e :: rest).

(** The items of a sequence of field entries. *)
Definition KnownKeys_fields_items (fs : list KnownKeys_field) : list item :=
  flat_map KnownKeys_field_items fs.

(** The outcome of a reader that leaves [rest] on the wire. *)
Definition leaving {Self} (r : result Self) (rest : list item)
  : result (unit * (Self * list item)) :=
  match r with
  | Ok self => Ok (tt, (self, rest))
  | Raise e => Raise e
  | OutOfFuel => OutOfFuel
  end.

(** An instance around a decoded map. *)
Definition with_keys (r : result (gmap pystr bytes)) : result KnownKeys :=
  match r with
  | Ok d => Ok {| keys := Some d |}
  | Raise e => Raise e
  | OutOfFuel => OutOfFuel
  end.

(** The exception of [checkRequired]. *)
Definition KnownKeys_missing_keys : exn :=
  TProtocolException MISSING_REQUIRED_FIELD
    "Required field 'keys' was not found in serialized data! Struct: KnownKeys".

Definition wire_fields_items (fs : list wire_field) : list item :=
  flat_map wire_field_items fs.

(** [dict_items d] lists the entries of [d], each of them once, in some order:
    what [items()] returns on a dict object whose entries are [d]. *)
Definition lists_entries (dict_items : gmap pystr bytes -> list (pystr * bytes))
    (d : gmap pystr bytes) : Prop :=
  dict_items d ≡ₚ map_to_list d.

(** What the generic writer of KnownKeys sends, the pairs of the dict being
    iterated in the order [dict_items]. *)
Definition KnownKeys_sent (dict_items : gmap pystr bytes -> list (pystr * bytes))
    (x : KnownKeys) : result (list item) :=
  match keys x with
  | None => Ok (KnownKeys_items None)
  | Some d =>
      match KnownKeys_wire_pairs (dict_items d) with
      | Some ps =>
          Ok (struct_stream "KnownKeys"
                (field_entry "keys" MAP 1
                   (map_payload STRING STRING (Z.of_nat (size d)) ps)))
      | None => Raise UnicodeEncodeError
      end
  end.

(** The field entries the generic writer of CurveKeyPair sends. *)
Definition CurveKeyPair_fields (x : CurveKeyPair) : list wire_field :=
  match privateKey x with
  | Some v => [ {| wf_name := "privateKey"; wf_type := STRING; wf_id := 1;
                   wf_payload := [IString v] |} ]
  | None => []
  end ++
  match publicKey x with
  | Some v => [ {| wf_name := "publicKey"; wf_type := STRING; wf_id := 2;
                   wf_payload := [IString v] |} ]
  | None => []
  end.

(** A piece of code that leaves [self] as it found it. *)
Definition preserves_self {Self P A} (m : M (Self * P) A) : Prop :=
  forall self p,
    match m (self, p) with
    | Ok (_, (self', _)) => self' = self
    | _ => True
    end.

(** The outcome of a writer that appends what it wrote from an empty wire. *)
Definition appending {Self} (r : result (unit * (Self * list item))) (p : list item)
  : result (unit * (Self * list item)) :=
  match r with
  | Ok (_, (self, w)) => Ok (tt, (self, p ++ w))
  | Raise e => Raise e
  | OutOfFuel => OutOfFuel
  end.

(** * Link monitor commands: [openr/cli/commands/lm.py] *)

Module LM.

(** ** The replies of the daemon *)

(** The structs of [openr.Types] are declared outside the sources: the
    records below have the fields that the commands read. *)
Record BinaryAddress : Type := { addr : bytes }.

Record IpPrefix : Type := { prefixAddress : BinaryAddress; prefixLength : Z }.

Record InterfaceInfo : Type := { isUp : bool; networks : list IpPrefix }.

(** [InterfaceDetails]; its field [isOverloaded] is [if_isOverloaded] here,
    the name being taken by the one of [DumpLinksReply]. *)
Record InterfaceDetails : Type := {
  info : InterfaceInfo;
  if_isOverloaded : bool;
  metricOverride : option Z;
  linkFlapBackOffMs : option Z;
  linkMetricIncrementVal : Z;
}.

Record DumpLinksReply : Type := {
  thisNodeName : string;
  isOverloaded : bool;
  interfaceDetails : gmap string InterfaceDetails;
  nodeMetricIncrementVal : Z;
}.

(** One area of the running configuration. *)
Record AreaConfig : Type := {
  include_interface_regexes : list string;
  exclude_interface_regexes : list string;
  redistribute_interface_regexes : list string;
}.

(** ** What a command does to the outside *)

(** The calls on [client: OpenrCtrl.Client] that change the daemon. *)
Inductive client_call : Type :=
| setNodeOverload
| unsetNodeOverload
| setInterfaceOverload (interface : string)
| unsetInterfaceOverload (interface : string)
| setNodeInterfaceMetricIncrement (metric_inc : Z)
| unsetNodeInterfaceMetricIncrement
| setInterfaceMetricIncrement (interface : string) (metric_inc : Z)
| unsetInterfaceMetricIncrement (interface : string)
| setInterfaceMetric (interface : string) (metric : Z)
| unsetInterfaceMetric (interface : string)
| setAdjacencyMetric (interface node : string) (metric : Z)
| unsetAdjacencyMetric (interface node : string).

(** The lines printed so far (each [print] gives one entry, without the
    newline that [print] adds) and the calls made on the client so far. *)
Record world : Type := {
  stdout : list string;
  calls : list client_call;
}.

Definition fresh_world : world := {| stdout := []; calls := [] |}.

(** How a piece of code ends: it returns, [sys.exit(code)] ends the
    process, or an exception escapes. *)
Inductive outcome (A : Type) : Type :=
| Returned (a : A)
| SystemExit (code : Z)
| KeyError (key : string)
| ValueError.
Arguments Returned {A} a.
Arguments SystemExit {A} code.
Arguments KeyError {A} key.
Arguments ValueError {A}.

Definition cmd (A : Type) : Type := world -> outcome A * world.

Definition ret {A} (a : A) : cmd A := fun w => (Returned a, w).

Definition bind {A B} (m : cmd A) (k : A -> cmd B) : cmd B :=
  fun w =>
    match m w with
    | (Returned a, w') => k a w'
    | (SystemExit code, w') => (SystemExit code, w')
    | (KeyError key, w') => (KeyError key, w')
    | (ValueError, w') => (ValueError, w')
    end.

Declare Scope lm_scope.
Delimit Scope lm_scope with lm.
Notation "x <- m ;; k" := (bind m (fun x => k))
  (at level 100, m at next level, k at level 200, right associativity) : lm_scope.
Notation "m ;; k" := (bind m (fun _ => k))
  (at level 100, k at level 200, right associativity) : lm_scope.
Local Open Scope lm_scope.

(** [print(s)] *)
Definition print (s : string) : cmd unit :=
  fun w => (Returned tt, {| stdout := stdout w ++ [s]; calls := calls w |}).

(** [sys.exit(code)] *)
Definition sys_exit {A} (code : Z) : cmd A := fun w => (SystemExit code, w).

(** A call [client.f(...)]. *)
Definition call (f : client_call) : cmd unit :=
  fun w => (Returned tt, {| stdout := stdout w; calls := calls w ++ [f] |}).

(** [if c: body], the code going on after it. *)
Definition when (c : bool) (body : cmd unit) : cmd unit :=
  if c then body else ret tt.

(** [d[key]] *)
Definition getitem {V} (d : gmap string V) (key : string) : cmd V :=
  match d !! key with
  | Some v => ret v
  | None => fun w => (KeyError key, w)
  end.

(** [key in d] *)
Definition contains {V} (d : gmap string V) (key : string) : bool :=
  bool_decide (is_Some (d !! key)).

(** The truth value of an integer and of an optional integer. *)
Definition truthy (n : Z) : bool := negb (n =? 0).

Definition truthy_opt (o : option Z) : bool :=
  match o with
  | Some n => truthy n
  | None => false
  end.

(** The newline character of the messages. *)
Definition nl : string := String "010"%char EmptyString.

(** [str(n)] for an integer, as [format] and f-strings print it. *)
Definition str_int (n : Z) : string := pretty n.

Section Commands.
(* [self.fetch_lm_links(client)], of the base class: the reply it gives *)
Variable links : DumpLinksReply.
(* [utils.yesno(question, yes)]: the answer it gives *)
Variable yesno : string -> bool -> bool.
(* [int(metric)] on the text of an argument: [None] is a ValueError *)
Variable int_of_str : string -> option Z.

(** Lines 28-57. *)
Definition toggle_node_overload_bit (overload : bool) (yes : bool) : cmd unit :=
  let host := thisNodeName links in
  print "" ;;
  when (overload && isOverloaded links)
    (print ("Node " ++ host ++ " is already overloaded." ++ nl) ;; sys_exit 0) ;;
  when (negb overload && negb (isOverloaded links))
    (print ("Node " ++ host ++ " is not overloaded." ++ nl) ;; sys_exit 0) ;;
  let action := if overload then "set overload bit" else "unset overload bit" in
  if negb (yesno ("Are you sure to " ++ action ++ " for node " ++ host ++ " ?") yes)
  then print ""
  else
    (if overload then call setNodeOverload else call unsetNodeOverload) ;;
    print ("Successfully " ++ action ++ ".." ++ nl).

(** [links.interfaceDetails[interface].isOverloaded] *)
Definition interface_isOverloaded (interface : string) : cmd bool :=
  d <- getitem (interfaceDetails links) interface ;; ret (if_isOverloaded d).

(** Lines 59-94. *)
Definition toggle_link_overload_bit (overload : bool) (interface : string) (yes : bool)
  : cmd unit :=
  print "" ;;
  if negb (contains (interfaceDetails links) interface)
  then print ("No such interface: " ++ interface)
  else
    c1 <- (if overload then interface_isOverloaded interface else ret false) ;;
    when c1 (print ("Interface is already overloaded." ++ nl) ;; sys_exit 0) ;;
    c2 <- (if negb overload
           then o <- interface_isOverloaded interface ;; ret (negb o)
           else ret false) ;;
    when c2 (print ("Interface is not overloaded." ++ nl) ;; sys_exit 0) ;;
    let action := if overload then "set overload bit" else "unset overload bit" in
    if negb (yesno ("Are you sure to " ++ action ++ " for interface " ++ interface ++ " ?")
               yes)
    then print ""
    else
      (if overload then call (setInterfaceOverload interface)
       else call (unsetInterfaceOverload interface)) ;;
      print ("Successfully " ++ action ++ " for the interface." ++ nl).

(** Lines 96-129. *)
Definition toggle_node_metric_inc (metric_inc : Z) (yes : bool) : cmd unit :=
  let host := thisNodeName links in
  when (metric_inc <? 0)
    (print ("Can't set negative node metric increment on: " ++ host) ;; sys_exit 0) ;;
  if truthy metric_inc && (nodeMetricIncrementVal links =? metric_inc)
  then print ("Node metric increment already set with: " ++ str_int metric_inc
              ++ ". No-op." ++ nl)
  else if negb (truthy metric_inc) && (nodeMetricIncrementVal links =? 0)
  then print ("No node metric increment has been set on: " ++ host ++ ". No-op." ++ nl)
  else
    let action :=
      if truthy metric_inc then "set node metric inc" else "unset node metric inc" in
    when (negb (yesno ("Are you sure to " ++ action ++ " for node " ++ host ++ " ?") yes))
      (sys_exit 0) ;;
    (if truthy metric_inc then call (setNodeInterfaceMetricIncrement metric_inc)
     else call unsetNodeInterfaceMetricIncrement) ;;
    print ("Successfully " ++ action ++ " for node " ++ host ++ "." ++ nl).

(** [links.interfaceDetails[interface].linkMetricIncrementVal] *)
Definition interface_linkMetricIncrementVal (interface : string) : cmd Z :=
  d <- getitem (interfaceDetails links) interface ;; ret (linkMetricIncrementVal d).

(** Lines 131-178. *)
Definition toggle_link_metric_inc (interface : string) (metric_inc : Z) (yes : bool)
  : cmd unit :=
  let host := thisNodeName links in
  when (metric_inc <? 0)
    (print ("Can't set negative link metric increment on: " ++ host) ;; sys_exit 0) ;;
  when (negb (contains (interfaceDetails links) interface))
    (print ("No such interface: " ++ interface ++ " on node: " ++ host) ;; sys_exit 0) ;;
  c1 <- (if truthy metric_inc
         then v <- interface_linkMetricIncrementVal interface ;; ret (v =? metric_inc)
         else ret false) ;;
  if c1
  then print ("Link metric increment already set with: " ++ str_int metric_inc
              ++ ". No-op." ++ nl)
  else
    c2 <- (if negb (truthy metric_inc)
           then v <- interface_linkMetricIncrementVal interface ;; ret (v =? 0)
           else ret false) ;;
    if c2
    then print ("No link metric increment has been set on: " ++ interface
                ++ ". No-op." ++ nl)
    else
      let action :=
        if truthy metric_inc then "set link metric inc" else "unset link metric inc" in
      when (negb (yesno ("Are you sure to " ++ action ++ " for link " ++ interface
                         ++ " on node " ++ host ++ " ?") yes))
        (sys_exit 0) ;;
      (if truthy metric_inc then call (setInterfaceMetricIncrement interface metric_inc)
       else call (unsetInterfaceMetricIncrement interface)) ;;
      print ("Successfully " ++ action ++ " for interface " ++ interface
             ++ " on node " ++ host ++ "." ++ nl).
End Commands.

(** Lines 180-191: [None] when no override is set, else whether the override
    is [metric]. *)
Definition check_link_overriden (links : DumpLinksReply) (interface : string) (metric : Z)
  : cmd (option bool) :=
  d <- getitem (interfaceDetails links) interface ;;
  let metricOverride := metricOverride d in
  if negb (truthy_opt metricOverride) then ret None
  else ret (Some (bool_decide (metricOverride = Some metric))).

Section More_commands.
Variable links : DumpLinksReply.
Variable yesno : string -> bool -> bool.
Variable int_of_str : string -> option Z.

(** Lines 193-232. *)
Definition toggle_link_metric (override : bool) (interface : string) (metric : Z)
    (yes : bool) : cmd unit :=
  print "" ;;
  if negb (contains (interfaceDetails links) interface)
  then print ("No such interface: " ++ interface)
  else
    status <- check_link_overriden links interface metric ;;
    when (negb override && negb (is_not_None status))
      (print ("Interface hasn't been assigned metric override." ++ nl) ;; sys_exit 0) ;;
    when (override && match status with Some b => b | None => false end)
      (print ("Interface: " ++ interface ++ " has already been set with metric: "
              ++ str_int metric ++ "." ++ nl) ;; sys_exit 0) ;;
    let action := if override then "set override metric" else "unset override metric" in
    if negb (yesno ("Are you sure to " ++ action ++ " for interface " ++ interface ++ " ?")
               yes)
    then print ""
    else
      (if override then call (setInterfaceMetric interface metric)
       else call (unsetInterfaceMetric interface)) ;;
      print ("Successfully " ++ action ++ " for the interface." ++ nl).

(** [int(metric)] *)
Definition int (s : string) : cmd Z :=
  match int_of_str s with
  | Some n => ret n
  | None => fun w => (ValueError, w)
  end.

(** The [_run] methods of the command classes (lines 335-479). *)
Definition SetNodeOverloadCmd_run (yes : bool) : cmd unit :=
  toggle_node_overload_bit links yesno true yes.

Definition UnsetNodeOverloadCmd_run (yes : bool) : cmd unit :=
  toggle_node_overload_bit links yesno false yes.

Definition SetLinkOverloadCmd_run (interface : string) (yes : bool) : cmd unit :=
  toggle_link_overload_bit links yesno true interface yes.

Definition UnsetLinkOverloadCmd_run (interface : string) (yes : bool) : cmd unit :=
  toggle_link_overload_bit links yesno false interface yes.

Definition IncreaseNodeMetricCmd_run (metric : string) (yes : bool) : cmd unit :=
  n <- int metric ;; toggle_node_metric_inc links yesno n yes.

Definition ClearNodeMetricCmd_run (yes : bool) : cmd unit :=
  toggle_node_metric_inc links yesno 0 yes.

Definition IncreaseLinkMetricCmd_run (interface metric : string) (yes : bool) : cmd unit :=
  n <- int metric ;; toggle_link_metric_inc links yesno interface n yes.

Definition ClearLinkMetricCmd_run (interface : string) (yes : bool) : cmd unit :=
  toggle_link_metric_inc links yesno interface 0 yes.

Definition SetLinkMetricCmd_run (interface metric : string) (yes : bool) : cmd unit :=
  n <- int metric ;; toggle_link_metric true interface n yes.

Definition UnsetLinkMetricCmd_run (interface : string) (yes : bool) : cmd unit :=
  toggle_link_metric false interface 0 yes.

Definition OverrideAdjMetricCmd_run (node interface metric : string) (yes : bool)
  : cmd unit :=
  n <- int metric ;; call (setAdjacencyMetric interface node n).

Definition ClearAdjMetricOverrideCmd_run (node interface : string) (yes : bool)
  : cmd unit :=
  call (unsetAdjacencyMetric interface node).
End More_commands.

(** ** Tables of interfaces *)

(** What a table cell holds: [build_table_row] puts texts, integers and a
    list of addresses in its row. *)
Inductive cell : Type :=
| CellStr (s : string)
| CellInt (n : Z)
| CellList (l : list string).

(** The order of [sorted] on the items of a dict with [str] keys: the keys
    differ, so the values are never compared. *)
Definition item_le {V} (p q : string * V) : Prop := String.leb p.1 q.1 = true.

#[global] Instance item_le_dec {V} (p q : string * V) : Decision (item_le p q).
Proof. unfold item_le. apply _. Defined.

(** [sorted(d.items())] *)
Definition sorted_items {V} (d : gmap string V) : list (string * V) :=
  merge_sort item_le (map_to_list d).

Section Tables.
(* [utils.is_color_output_supported()] *)
Variable is_color_output_supported : bool.
(* [click.style(text, fg=color)] *)
Variable click_style : string -> string -> string.
(* [ipnetwork.sprint_addr(addr)] *)
Variable sprint_addr : bytes -> string.
(* [int(a / b)]: the float division and its truncation *)
Variable int_truediv : Z -> Z -> Z.
(* [printing.render_horizontal_table(rows, columns, caption)] *)
Variable render_horizontal_table : list (list cell) -> list string -> option string -> string.
(* [utils.json_dumps({links.thisNodeName: self.links_to_dict(links)})] *)
Variable links_json : DumpLinksReply -> string.
(* [self.fetch_lm_links(client)] *)
Variable links : DumpLinksReply.

(** Lines 285-320. *)
Definition build_table_row (k : string) (v : InterfaceDetails) : list cell :=
  let metric_override :=
    match metricOverride v with
    | Some n => if truthy n then CellInt n else CellStr ""
    | None => CellStr ""
    end in
  let state :=
    if isUp (info v) then
      let backoff_sec :=
        int_truediv (match linkFlapBackOffMs v with
                     | Some n => if truthy n then n else 0
                     | None => 0
                     end) 1000 in
      if backoff_sec =? 0 then CellStr "Up"
      else if negb is_color_output_supported then CellInt backoff_sec
      else CellStr (click_style ("Hold (" ++ str_int backoff_sec ++ " s)") "yellow")
    else
      CellStr (if is_color_output_supported then click_style "Down" "red" else "Down") in
  let metric_override :=
    if if_isOverloaded v
    then CellStr (if is_color_output_supported
                  then click_style "Overloaded" "red" else "Overloaded")
    else metric_override in
  let addrs :=
    map (fun prefix => sprint_addr (addr (prefixAddress prefix))) (networks (info v)) in
  [CellStr k; state; metric_override; CellList addrs].

(** The body of the loop of [build_table_rows] (lines 277-282). *)
Definition build_table_rows_step (rows : list (list cell)) (kv : string * InterfaceDetails)
  : list (list cell) :=
  let raw_row := build_table_row kv.1 kv.2 in
  let addrs := match raw_row !! 3%nat with Some (CellList l) => l | _ => [] end in
  let raw_row := <[3%nat := CellStr ""]> raw_row in
  (rows ++ [raw_row])
    ++ map (fun addrStr => [CellStr ""; CellStr ""; CellStr ""; CellStr addrStr]) addrs.

(** Lines 273-283. *)
Definition build_table_rows (interfaces : gmap string InterfaceDetails)
  : list (list cell) :=
  fold_left build_table_rows_step (sorted_items interfaces) [].

(** Lines 322-332. *)
Definition print_links_table (interfaces : gmap string InterfaceDetails)
    (caption : option string) : cmd unit :=
  let columns := ["Interface"; "Status"; "Metric Override"; "Addresses"] in
  let rows := build_table_rows interfaces in
  print (render_horizontal_table rows columns caption).

(** Lines 269-271. *)
Definition print_links_json (links : DumpLinksReply) : cmd unit :=
  print (links_json links).

(** Lines 519-521: the interfaces whose [linkFlapBackOffMs] is set and not 0. *)
Definition suppressed (d : gmap string InterfaceDetails) : gmap string InterfaceDetails :=
  filter (fun kv => truthy_opt (linkFlapBackOffMs kv.2) = true) d.

(** [LMLinksCmd._run] (lines 508-549). *)
Definition LMLinksCmd_run (only_suppressed json : bool) : cmd unit :=
  let links :=
    if only_suppressed
    then {| thisNodeName := thisNodeName links;
            isOverloaded := isOverloaded links;
            interfaceDetails := suppressed (interfaceDetails links);
            nodeMetricIncrementVal := nodeMetricIncrementVal links |}
    else links in
  if json then print_links_json links
  else
    let overload_status :=
      if is_color_output_supported
      then click_style (if isOverloaded links then "YES" else "NO")
             (if isOverloaded links then "red" else "green")
      else if isOverloaded links then "YES" else "NO" in
    let node_metric_inc_status :=
      if is_color_output_supported
      then click_style (str_int (nodeMetricIncrementVal links))
             (if 0 <? nodeMetricIncrementVal links then "red" else "green")
      else str_int (nodeMetricIncrementVal links) in
    let caption :=
      ("Node Overload: " ++ overload_status ++ ", Node Metric Increment: "
       ++ node_metric_inc_status)%string in
    print_links_table (interfaceDetails links) (Some caption).
End Tables.

(** ** Validation of the interfaces *)

Section Validation.
(* [self.validate_regexes(regexes, strings, expect_at_least_one_match)] *)
Variable validate_regexes : list string -> list string -> bool -> bool.

(** Lines 606-627: the loop over the areas, left at the first area whose
    regexes the interface passes. *)
Fixpoint passes_regex_check (areas : list AreaConfig) (interface : string) : bool :=
  match areas with
  | [] => false
  | area :: areas' =>
      let incl_regexes := include_interface_regexes area in
      let excl_regexes := exclude_interface_regexes area in
      let redistr_regexes := redistribute_interface_regexes area in
      let passes_incl_regexes := validate_regexes incl_regexes [interface] true in
      let passes_excl_regexes := validate_regexes excl_regexes [interface] false in
      let passes_redistr_regexes := validate_regexes redistr_regexes [interface] true in
      if (passes_incl_regexes || passes_redistr_regexes) && passes_excl_regexes
      then true
      else passes_regex_check areas' interface
  end.

(** Lines 604-630: the loop over the interfaces. *)
Fixpoint invalid_interfaces_loop (areas : list AreaConfig) (interfaces : list string)
    (invalid_interfaces : gset string) : gset string :=
  match interfaces with
  | [] => invalid_interfaces
  | interface :: interfaces' =>
      invalid_interfaces_loop areas interfaces'
        (if negb (passes_regex_check areas interface)
         then invalid_interfaces ∪ {[ interface ]}
         else invalid_interfaces)
  end.

(** Lines 632-635: [{interface: d[interface] for interface in keys}]. *)
Fixpoint dict_of_keys {V} (d : gmap string V) (keys : list string) : cmd (gmap string V) :=
  match keys with
  | [] => ret ∅
  | key :: keys' =>
      v <- getitem d key ;;
      rest <- dict_of_keys d keys' ;;
      ret (<[key := v]> rest)
  end.

(** Lines 593-637. *)
Definition _validate_interface_regex (links : DumpLinksReply) (areas : list AreaConfig)
  : cmd (gmap string InterfaceDetails) :=
  let interfaces := (map_to_list (interfaceDetails links)).*1 in
  let invalid_interfaces := invalid_interfaces_loop areas interfaces ∅ in
  dict_of_keys (interfaceDetails links) (elements invalid_interfaces).
End Validation.

End LM.

(** * Properties *)

(** ** Running monadic code *)

Lemma bind_Ok {S A B} (m : M S A) (k : A -> M S B) s a s' :
  m s = Ok (a, s') -> bind m k s = k a s'.
Proof. intros Hm. unfold bind. now rewrite Hm. Qed.

Lemma bind_Raise {S A B} (m : M S A) (k : A -> M S B) s e :
  m s = Raise e -> bind m k s = Raise e.
Proof. intros Hm. unfold bind. now rewrite Hm. Qed.

Lemma on_prot_Ok {Self P A} (m : M P A) (self : Self) p a p' :
  m p = Ok (a, p') -> on_prot m (self, p) = Ok (a, (self, p')).
Proof. intros Hm. unfold on_prot. now rewrite Hm. Qed.

Lemma on_prot_Raise {Self P A} (m : M P A) (self : Self) p e :
  m p = Raise e -> on_prot (Self := Self) m (self, p) = Raise e.
Proof. intros Hm. unfold on_prot. now rewrite Hm. Qed.

(** ** The generic skip consumes exactly one value *)

Lemma payload_head ty pl :
  payload ty pl -> exists i pl', pl = i :: pl' /\ is_end_marker i = false.
Proof. destruct 1; simpl; eauto. Qed.

Lemma payload_not_STOP ty pl : payload ty pl -> ty <> STOP.
Proof. destruct 1; try discriminate. destruct ty; discriminate. Qed.

Lemma length_app_lt {A} (l1 l2 : list A) n :
  (List.length (l1 ++ l2) < n)%nat ->
  (List.length l1 < n)%nat /\ (List.length l2 < n)%nat.
Proof. rewrite length_app. lia. Qed.

Lemma skip_elements_spec fuel size n (more : M (list item) bool) body p r :
  size_ok size n ->
  for_range_nat n body p = r ->
  while_ fuel more body p = r ->
  Ref.skip_elements fuel size more body p = r.
Proof.
  intros Hsize Hfor Hwhile. unfold Ref.skip_elements, for_range.
  destruct (0 <=? size) eqn:E; [| exact Hwhile].
  destruct Hsize as [-> | Hneg]; [| lia].
  now rewrite Nat2Z.id.
Qed.

Lemma skip_wire :
  (forall ty pl, payload ty pl -> skip_payload_stmt ty pl)
  /\ (forall body, field_seq body -> skip_fields_stmt body)
  /\ (forall ktype vtype n body, entry_seq ktype vtype n body ->
        skip_entries_stmt ktype vtype n body)
  /\ (forall etype n body, elem_seq etype n body -> skip_elems_stmt etype n body).
Proof.
  apply wire_mutind.
  - (* scalar *)
    intros ty n Hty fuel rest Hfuel. destruct fuel as [| fuel]; [simpl in Hfuel; lia |].
    destruct ty; try discriminate; reflexivity.
  - (* string *)
    intros b fuel rest Hfuel. destruct fuel as [| fuel]; [simpl in Hfuel; lia |].
    reflexivity.
  - (* struct *)
    intros name body _ IH fuel rest Hfuel.
    destruct fuel as [| fuel]; [simpl in Hfuel; lia |].
    simpl in Hfuel. rewrite length_app in Hfuel. simpl in Hfuel.
    cbn [Ref.skip_fuel app]. rewrite <- app_assoc. cbn [app].
    unfold bind at 1. cbn [Ref.readStructBegin Ref.take].
    unfold bind at 1. rewrite IH by lia. reflexivity.
  - (* map *)
    intros ktype vtype size n body Hsize _ IH fuel rest Hfuel.
    destruct fuel as [| fuel]; [simpl in Hfuel; lia |].
    simpl in Hfuel. rewrite length_app in Hfuel. simpl in Hfuel.
    cbn [Ref.skip_fuel app]. rewrite <- app_assoc. cbn [app].
    unfold bind at 1. cbn [Ref.readMapBegin Ref.take].
    unfold bind at 1.
    destruct (IH fuel (IMapEnd :: rest)) as [Hfor _]; [lia |].
    destruct (IH fuel rest) as [_ Hwhile]; [lia |].
    rewrite (skip_elements_spec _ _ _ _ _ _ (Ok (tt, IMapEnd :: rest)) Hsize Hfor);
      [reflexivity |].
    apply Hwhile. lia.
  - (* set *)
    intros etype size n body Hsize _ IH fuel rest Hfuel.
    destruct fuel as [| fuel]; [simpl in Hfuel; lia |].
    simpl in Hfuel. rewrite length_app in Hfuel. simpl in Hfuel.
    cbn [Ref.skip_fuel app]. rewrite <- app_assoc. cbn [app].
    unfold bind at 1. cbn [Ref.readSetBegin Ref.take].
    unfold bind at 1.
    destruct (IH fuel (ISetEnd :: rest)) as [Hfor _]; [lia |].
    destruct (IH fuel rest) as [_ Hwhile]; [lia |].
    rewrite (skip_elements_spec _ _ _ _ _ _ (Ok (tt, ISetEnd :: rest)) Hsize Hfor);
      [reflexivity |].
    apply Hwhile; [lia | reflexivity | reflexivity |].
    intros []; simpl; congruence.
  - (* list *)
    intros etype size n body Hsize _ IH fuel rest Hfuel.
    destruct fuel as [| fuel]; [simpl in Hfuel; lia |].
    simpl in Hfuel. rewrite length_app in Hfuel. simpl in Hfuel.
    cbn [Ref.skip_fuel app]. rewrite <- app_assoc. cbn [app].
    unfold bind at 1. cbn [Ref.readListBegin Ref.take].
    unfold bind at 1.
    destruct (IH fuel (IListEnd :: rest)) as [Hfor _]; [lia |].
    destruct (IH fuel rest) as [_ Hwhile]; [lia |].
    rewrite (skip_elements_spec _ _ _ _ _ _ (Ok (tt, IListEnd :: rest)) Hsize Hfor);
      [reflexivity |].
    apply Hwhile; [lia | reflexivity | reflexivity |].
    intros []; simpl; congruence.
  - (* no field *)
    intros f1 f2 rest Hf1 _. destruct f1 as [| f1]; [simpl in Hf1; lia |].
    reflexivity.
  - (* a field *)
    intros name ty fid pl body Hpl IHpl _ IH f1 f2 rest Hf1 Hf2.
    destruct f1 as [| f1]; [simpl in Hf1; lia |].
    simpl in Hf1, Hf2. rewrite length_app in Hf1, Hf2. simpl in Hf1, Hf2.
    cbn [Ref.skip_fields app]. rewrite <- app_assoc. cbn [app].
    unfold bind at 1. cbn [Ref.readFieldBegin Ref.take].
    assert (TType_eqb ty STOP = false) as ->.
    { apply bool_decide_eq_false. eapply payload_not_STOP; eauto. }
    unfold bind at 1. rewrite IHpl by lia.
    unfold bind at 1. cbn [Ref.readFieldEnd Ref.take].
    apply IH; lia.
  - (* no entry *)
    intros ktype vtype f rest Hf. split; [reflexivity |].
    intros f1 Hf1. destruct f1 as [| f1]; [simpl in Hf1; lia |]. reflexivity.
  - (* an entry *)
    intros ktype vtype n k v body Hk IHk Hv IHv _ IH f rest Hf.
    rewrite !length_app in Hf.
    destruct (IH f rest) as [Hfor Hwhile]; [lia |].
    split.
    + cbn [for_range_nat]. rewrite <- !app_assoc.
      unfold bind at 1. unfold bind at 1. rewrite IHk by lia.
      rewrite IHv by lia. exact Hfor.
    + intros f1 Hf1. rewrite !length_app in Hf1.
      destruct (payload_head _ _ Hk) as (i & k' & -> & Hi).
      destruct (payload_head _ _ Hv) as (j & v' & Hj & _).
      destruct f1 as [| f1]; [lia |].
      cbn [while_]. rewrite <- !app_assoc.
      unfold bind at 1. cbn [app Ref.peekMap Ref.peek].
      assert (negb match i with IMapEnd => true | _ => false end = true) as ->.
      { destruct i; simpl in *; congruence. }
      unfold bind at 1. unfold bind at 1.
      change (i :: k' ++ v ++ body ++ IMapEnd :: rest)
        with ((i :: k') ++ v ++ body ++ IMapEnd :: rest).
      rewrite IHk by lia. rewrite IHv by lia.
      apply Hwhile. subst v. simpl in Hf1. lia.
  - (* no element *)
    intros etype f rest Hf. split; [reflexivity |].
    intros f1 is_end e Hf1 He1 He2 _.
    destruct f1 as [| f1]; [simpl in Hf1; lia |].
    cbn [while_ app]. unfold bind. cbn [Ref.peek]. now rewrite He2.
  - (* an element *)
    intros etype n e body He IHe _ IH f rest Hf.
    rewrite !length_app in Hf.
    destruct (IH f rest) as [Hfor Hwhile]; [lia |].
    split.
    + cbn [for_range_nat]. rewrite <- !app_assoc.
      unfold bind at 1. rewrite IHe by lia. exact Hfor.
    + intros f1 is_end e' Hf1 He1 He2 Hne. rewrite !length_app in Hf1.
      destruct (payload_head _ _ He) as (i & k' & -> & Hi).
      destruct f1 as [| f1]; [lia |].
      cbn [while_]. rewrite <- !app_assoc.
      unfold bind at 1. cbn [app Ref.peek]. rewrite (Hne i Hi). cbn [negb].
      unfold bind at 1.
      change (i :: k' ++ body ++ e' :: rest) with ((i :: k') ++ body ++ e' :: rest).
      rewrite IHe by lia.
      apply Hwhile; auto. simpl in Hf1. lia.
Qed.

Lemma ref_skip_payload ty pl rest :
  payload ty pl -> Ref.skip ty (pl ++ rest) = Ok (tt, rest).
Proof.
  intros Hpl. unfold Ref.skip.
  apply (proj1 skip_wire ty pl Hpl). rewrite length_app. lia.
Qed.

(** ** Reading the fields of a KnownKeys stream *)

Section KnownKeys_on_reference_protocol.
Variable c : protocol_class.

Lemma KnownKeys_read_entry_ref k v d rest :
  KnownKeys_read_entry (prot := ref_protocol c)
    ({| keys := Some d |}, IString k :: IString v :: rest)
  = leaving (with_keys (match bytes_decode_utf8 k with
                        | Ok s => Ok (<[PyStr s := v]> d)
                        | Raise e => Raise e
                        | OutOfFuel => OutOfFuel
                        end)) rest.
Proof.
  unfold KnownKeys_read_entry, KnownKeys_read_key. cbn.
  unfold bind, lift_result. cbn.
  destruct (bytes_decode_utf8 k); reflexivity.
Qed.

Lemma KnownKeys_entries_counted pairs : forall d rest,
  for_range_nat (List.length pairs) (KnownKeys_read_entry (prot := ref_protocol c))
    ({| keys := Some d |}, string_pairs pairs ++ rest)
  = leaving (with_keys (KnownKeys_entries pairs d)) rest.
Proof.
  induction pairs as [| [k v] pairs IH]; intros d rest; [reflexivity |].
  cbn [List.length for_range_nat string_pairs app KnownKeys_entries].
  unfold bind at 1. rewrite KnownKeys_read_entry_ref.
  destruct (bytes_decode_utf8 k); cbn; [apply IH | reflexivity | reflexivity].
Qed.

Lemma KnownKeys_entries_peeked pairs : forall fuel d rest,
  (List.length pairs < fuel)%nat ->
  while_ fuel (on_prot (peekMap (TProtocol := ref_protocol c)))
    (KnownKeys_read_entry (prot := ref_protocol c))
    ({| keys := Some d |}, string_pairs pairs ++ IMapEnd :: rest)
  = leaving (with_keys (KnownKeys_entries pairs d)) (IMapEnd :: rest).
Proof.
  induction pairs as [| [k v] pairs IH]; intros fuel d rest Hfuel;
    (destruct fuel as [| fuel]; [simpl in Hfuel; lia |]).
  - reflexivity.
  - cbn [List.length while_ string_pairs app KnownKeys_entries].
    unfold bind at 1. cbn [on_prot peekMap ref_protocol Ref.peekMap Ref.peek negb].
    unfold bind at 1. rewrite KnownKeys_read_entry_ref.
    destruct (bytes_decode_utf8 k); cbn; [| reflexivity | reflexivity].
    apply IH. simpl in Hfuel. lia.
Qed.

Lemma length_string_pairs pairs :
  List.length (string_pairs pairs) = (2 * List.length pairs)%nat.
Proof. induction pairs as [| [k v] pairs IH]; simpl; lia. Qed.

Lemma KnownKeys_read_keys_ref fuel self ktype vtype size pairs rest :
  size_ok size (List.length pairs) ->
  (List.length pairs < fuel)%nat ->
  KnownKeys_read_keys (prot := ref_protocol c) fuel
    (self, map_payload ktype vtype size pairs ++ rest)
  = leaving (with_keys (KnownKeys_entries pairs ∅)) rest.
Proof.
  intros Hsize Hfuel. unfold KnownKeys_read_keys, map_payload.
  cbn [app]. rewrite <- app_assoc. cbn [app].
  erewrite bind_Ok by reflexivity.
  erewrite bind_Ok by reflexivity.
  assert ((if 0 <=? size
           then for_range size (KnownKeys_read_entry (prot := ref_protocol c))
           else while_ fuel (on_prot (peekMap (TProtocol := ref_protocol c)))
                  (KnownKeys_read_entry (prot := ref_protocol c)))
            ({| keys := Some ∅ |}, string_pairs pairs ++ IMapEnd :: rest)
          = leaving (with_keys (KnownKeys_entries pairs ∅)) (IMapEnd :: rest)) as E.
  { destruct (0 <=? size) eqn:E.
    - destruct Hsize as [-> | Hneg]; [| lia].
      unfold for_range. rewrite Nat2Z.id. apply KnownKeys_entries_counted.
    - apply KnownKeys_entries_peeked. exact Hfuel. }
  unfold bind at 1. rewrite E.
  destruct (KnownKeys_entries pairs ∅); reflexivity.
Qed.

(** One field entry, then the rest of the loop. *)
Lemma KnownKeys_read_fields_step f : forall fuel self tail,
  KnownKeys_field_ok f ->
  (List.length (KnownKeys_field_items f) <= fuel)%nat ->
  KnownKeys_read_fields (prot := ref_protocol c) (S fuel)
    (self, KnownKeys_field_items f ++ tail)
  = match KnownKeys_absorb [f] self with
    | Ok self' => KnownKeys_read_fields (prot := ref_protocol c) fuel (self', tail)
    | Raise e => Raise e
    | OutOfFuel => OutOfFuel
    end.
Proof.
  intros fuel self tail Hok Hfuel. destruct f as [name ktype vtype size pairs | f].
  - (* field 1, a map of strings *)
    cbn [KnownKeys_field_items field_entry KnownKeys_field_ok] in *.
    unfold field_entry in *.
    cbn [KnownKeys_read_fields app KnownKeys_absorb].
    rewrite <- app_assoc. cbn [app].
    erewrite bind_Ok by reflexivity. cbn beta iota.
    change (TType_eqb MAP STOP) with false. cbn beta iota.
    unfold KnownKeys_read_field. change (1 =? 1) with true.
    change (TType_eqb MAP MAP) with true. cbn beta iota.
    unfold bind at 1.
    rewrite KnownKeys_read_keys_ref; [| exact Hok |].
    + destruct (KnownKeys_entries pairs ∅); cbn [with_keys leaving]; try reflexivity.
    + simpl in Hfuel. rewrite !length_app, length_string_pairs in Hfuel.
      simpl in Hfuel. lia.
  - (* a field that is skipped *)
    destruct f as [name ty fid pl]. destruct Hok as [Hpl Hne].
    unfold wire_field_ok in Hpl. cbn in Hpl, Hne.
    unfold KnownKeys_field_items, wire_field_items, field_entry.
    cbn [wf_name wf_type wf_id wf_payload KnownKeys_read_fields KnownKeys_absorb app].
    rewrite <- app_assoc. cbn [app].
    erewrite bind_Ok by reflexivity. cbn beta iota.
    assert (TType_eqb ty STOP = false) as ->.
    { apply bool_decide_eq_false. eapply payload_not_STOP; eauto. }
    assert (KnownKeys_read_field (prot := ref_protocol c) (S fuel) ty fid
            = on_prot (skip (TProtocol := ref_protocol c) ty)) as ->.
    { unfold KnownKeys_read_field. destruct (fid =? 1) eqn:E; [| reflexivity].
      assert (TType_eqb ty MAP = false) as ->; [| reflexivity].
      apply bool_decide_eq_false. destruct Hne as [Hne | Hne]; [lia | exact Hne]. }
    erewrite bind_Ok
      by (apply on_prot_Ok; cbn [skip ref_protocol]; apply ref_skip_payload, Hpl).
    erewrite bind_Ok by reflexivity.
    reflexivity.
Qed.

Lemma KnownKeys_absorb_cons f fs self :
  KnownKeys_absorb (f :: fs) self
  = match KnownKeys_absorb [f] self with
    | Ok self' => KnownKeys_absorb fs self'
    | Raise e => Raise e
    | OutOfFuel => OutOfFuel
    end.
Proof.
  destruct f as [name ktype vtype size pairs | f]; cbn [KnownKeys_absorb];
    [destruct (KnownKeys_entries pairs ∅) |]; reflexivity.
Qed.

Lemma KnownKeys_read_fields_ref fs :
  Forall KnownKeys_field_ok fs ->
  forall fuel self rest,
    (List.length (KnownKeys_fields_items fs) < fuel)%nat ->
    KnownKeys_read_fields (prot := ref_protocol c) fuel
      (self, KnownKeys_fields_items fs ++ IFieldStop :: rest)
    = leaving (KnownKeys_absorb fs self) rest.
Proof.
  induction 1 as [| f fs Hf Hfs IH]; intros fuel self rest Hfuel;
    (destruct fuel as [| fuel]; [simpl in Hfuel; lia |]).
  - reflexivity.
  - unfold KnownKeys_fields_items in *. cbn [flat_map] in *.
    rewrite length_app in Hfuel. rewrite <- app_assoc.
    rewrite KnownKeys_read_fields_step by (trivial; lia).
    rewrite (KnownKeys_absorb_cons f fs).
    destruct (KnownKeys_absorb [f] self) as [self' | e |]; try reflexivity.
    apply IH. destruct f; simpl in Hfuel; lia.
Qed.

(** The generic reader on a KnownKeys stream. *)
Lemma KnownKeys_read_generic_ref name fs fuel self rest :
  Forall KnownKeys_field_ok fs ->
  (List.length (KnownKeys_fields_items fs) < fuel)%nat ->
  KnownKeys_read_generic (prot := ref_protocol c) fuel
    (self, struct_stream name (KnownKeys_fields_items fs) ++ rest)
  = match KnownKeys_absorb fs self with
    | Ok self' =>
        match keys self' with
        | Some _ => Ok (tt, (self', rest))
        | None => Raise KnownKeys_missing_keys
        end
    | Raise e => Raise e
    | OutOfFuel => OutOfFuel
    end.
Proof.
  intros Hfs Hfuel. unfold KnownKeys_read_generic, struct_stream.
  cbn [app]. rewrite <- app_assoc. cbn [app].
  erewrite bind_Ok by reflexivity.
  unfold bind at 1. rewrite KnownKeys_read_fields_ref by assumption.
  destruct (KnownKeys_absorb fs self) as [[d] | e |]; try reflexivity.
  cbn [leaving]. erewrite bind_Ok by reflexivity.
  destruct d; reflexivity.
Qed.
End KnownKeys_on_reference_protocol.

(** ** Reading the fields of a CurveKeyPair stream *)

Section CurveKeyPair_on_reference_protocol.
Variable c : protocol_class.

Lemma payload_STRING_inv pl : payload STRING pl -> exists b, pl = [IString b].
Proof.
  inversion 1; subst; eauto.
  match goal with H : is_scalar STRING = true |- _ => discriminate H end.
Qed.

Lemma CurveKeyPair_absorb_field_other f self :
  wf_type f <> STRING -> CurveKeyPair_absorb_field f self = self.
Proof.
  unfold CurveKeyPair_absorb_field. destruct (wf_type f); congruence.
Qed.

(** One field entry, then the rest of the loop. *)
Lemma CurveKeyPair_read_fields_step f fuel self tail :
  wire_field_ok f ->
  CurveKeyPair_read_fields (prot := ref_protocol c) (S fuel)
    (self, wire_field_items f ++ tail)
  = CurveKeyPair_read_fields (prot := ref_protocol c) fuel
      (CurveKeyPair_absorb_field f self, tail).
Proof.
  destruct f as [name ty fid pl]. unfold wire_field_ok. cbn [wf_type wf_payload].
  intros Hpl. unfold wire_field_items, field_entry.
  cbn [wf_name wf_type wf_id wf_payload CurveKeyPair_read_fields app].
  rewrite <- app_assoc. cbn [app].
  erewrite bind_Ok by reflexivity. cbn beta iota.
  assert (TType_eqb ty STOP = false) as ->.
  { apply bool_decide_eq_false. eapply payload_not_STOP; eauto. }
  destruct (decide (ty = STRING)) as [-> | Hty].
  - destruct (payload_STRING_inv _ Hpl) as [b ->].
    unfold CurveKeyPair_read_field, CurveKeyPair_absorb_field.
    cbn [wf_type wf_payload wf_id].
    change (TType_eqb STRING STRING) with true. cbn beta iota.
    destruct (fid =? 1); [| destruct (fid =? 2)]; reflexivity.
  - rewrite CurveKeyPair_absorb_field_other by exact Hty.
    assert (CurveKeyPair_read_field (prot := ref_protocol c) ty fid
            = on_prot (skip (TProtocol := ref_protocol c) ty)) as ->.
    { unfold CurveKeyPair_read_field.
      assert (TType_eqb ty STRING = false) as ->
          by (apply bool_decide_eq_false; exact Hty).
      destruct (fid =? 1); [| destruct (fid =? 2)]; reflexivity. }
    erewrite bind_Ok
      by (apply on_prot_Ok; cbn [skip ref_protocol]; apply ref_skip_payload, Hpl).
    erewrite bind_Ok by reflexivity.
    reflexivity.
Qed.

Lemma CurveKeyPair_read_fields_ref fs :
  Forall wire_field_ok fs ->
  forall fuel self rest,
    (List.length fs < fuel)%nat ->
    CurveKeyPair_read_fields (prot := ref_protocol c) fuel
      (self, wire_fields_items fs ++ IFieldStop :: rest)
    = Ok (tt, (CurveKeyPair_absorb fs self, rest)).
Proof.
  induction 1 as [| f fs Hf Hfs IH]; intros fuel self rest Hfuel;
    (destruct fuel as [| fuel]; [simpl in Hfuel; lia |]).
  - reflexivity.
  - unfold wire_fields_items in *. cbn [flat_map].
    rewrite <- app_assoc.
    rewrite CurveKeyPair_read_fields_step by trivial.
    rewrite IH by (simpl in Hfuel; lia). reflexivity.
Qed.

(** The generic reader on a CurveKeyPair stream. *)
Lemma CurveKeyPair_read_generic_ref name fs fuel self rest :
  Forall wire_field_ok fs ->
  (List.length fs < fuel)%nat ->
  CurveKeyPair_read_generic (prot := ref_protocol c) fuel
    (self, struct_stream name (wire_fields_items fs) ++ rest)
  = Ok (tt, (CurveKeyPair_absorb fs self, rest)).
Proof.
  intros Hfs Hfuel. unfold CurveKeyPair_read_generic, struct_stream.
  cbn [app]. rewrite <- app_assoc. cbn [app].
  erewrite bind_Ok by reflexivity.
  unfold bind at 1. rewrite CurveKeyPair_read_fields_ref by assumption.
  reflexivity.
Qed.
End CurveKeyPair_on_reference_protocol.

(** ** The UTF-8 codec round trip *)

Ltac N_arith :=
  repeat match goal with
         | H : (_ <? _)%N = true |- _ => apply N.ltb_lt in H
         | H : (_ <? _)%N = false |- _ => apply N.ltb_ge in H
         | H : (_ <=? _)%N = true |- _ => apply N.leb_le in H
         | H : (_ <=? _)%N = false |- _ => apply N.leb_gt in H
         | H : (_ && _) = true |- _ => apply andb_true_iff in H; destruct H
         | H : (_ && _) = false |- _ => apply andb_false_iff in H; destruct H
         end;
  zify; Z.to_euclidean_division_equations; lia.

Lemma utf8_encode_cp_byte c bs :
  utf8_encode_cp c = Some bs -> Forall (fun b => (b < 256)%N) bs.
Proof.
  unfold utf8_encode_cp. intros Hc.
  repeat match type of Hc with
         | (if ?b then _ else _) = _ => destruct b eqn:?
         end; try discriminate; injection Hc as <-;
    repeat (apply Forall_cons_2; [N_arith |]); apply Forall_nil_2.
Qed.

Lemma utf8_decode_encode_cp c bs rest :
  utf8_encode_cp c = Some bs ->
  utf8_decode_list (bs ++ rest) = cons c <$> utf8_decode_list rest.
Proof.
  unfold utf8_encode_cp. intros Hc.
  repeat match type of Hc with
         | (if ?b then _ else _) = _ => destruct b eqn:?
         end; try discriminate; injection Hc as <-;
    cbn [app utf8_decode_list]; unfold is_continuation.
  - (* one byte *)
    now rewrite Heqb.
  - (* two bytes *)
    assert ((192 + c / 64 <? 128)%N = false) as -> by (apply N.ltb_ge; N_arith).
    assert (((194 <=? 192 + c / 64) && (192 + c / 64 <=? 223))%N = true) as ->.
    { apply andb_true_iff; split; apply N.leb_le; N_arith. }
    assert (((128 <=? 128 + c mod 64) && (128 + c mod 64 <=? 191))%N = true) as ->.
    { apply andb_true_iff; split; apply N.leb_le; N_arith. }
    f_equal. f_equal. N_arith.
  - (* three bytes *)
    assert ((224 + c / 4096 <? 128)%N = false) as -> by (apply N.ltb_ge; N_arith).
    assert (((194 <=? 224 + c / 4096) && (224 + c / 4096 <=? 223))%N = false) as ->.
    { apply andb_false_iff; right; apply N.leb_gt; N_arith. }
    assert (((224 <=? 224 + c / 4096) && (224 + c / 4096 <=? 239))%N = true) as ->.
    { apply andb_true_iff; split; apply N.leb_le; N_arith. }
    assert (((128 <=? 128 + (c / 64) mod 64) && (128 + (c / 64) mod 64 <=? 191))%N = true)
      as -> by (apply andb_true_iff; split; apply N.leb_le; N_arith).
    assert (((128 <=? 128 + c mod 64) && (128 + c mod 64 <=? 191))%N = true)
      as -> by (apply andb_true_iff; split; apply N.leb_le; N_arith).
    assert (((224 + c / 4096 - 224) * 4096 + (128 + (c / 64) mod 64 - 128) * 64
             + (128 + c mod 64 - 128))%N = c) as -> by N_arith.
    rewrite Heqb2. cbn [andb negb].
    assert ((2048 <=? c)%N = true) as -> by (apply N.leb_le; N_arith).
    reflexivity.
  - (* four bytes *)
    assert ((240 + c / 262144 <? 128)%N = false) as -> by (apply N.ltb_ge; N_arith).
    assert (((194 <=? 240 + c / 262144) && (240 + c / 262144 <=? 223))%N = false) as ->.
    { apply andb_false_iff; right; apply N.leb_gt; N_arith. }
    assert (((224 <=? 240 + c / 262144) && (240 + c / 262144 <=? 239))%N = false) as ->.
    { apply andb_false_iff; right; apply N.leb_gt; N_arith. }
    assert (((240 <=? 240 + c / 262144) && (240 + c / 262144 <=? 244))%N = true) as ->.
    { apply andb_true_iff; split; apply N.leb_le; N_arith. }
    assert (((128 <=? 128 + (c / 4096) mod 64) && (128 + (c / 4096) mod 64 <=? 191))%N
            = true) as -> by (apply andb_true_iff; split; apply N.leb_le; N_arith).
    assert (((128 <=? 128 + (c / 64) mod 64) && (128 + (c / 64) mod 64 <=? 191))%N = true)
      as -> by (apply andb_true_iff; split; apply N.leb_le; N_arith).
    assert (((128 <=? 128 + c mod 64) && (128 + c mod 64 <=? 191))%N = true)
      as -> by (apply andb_true_iff; split; apply N.leb_le; N_arith).
    assert (((240 + c / 262144 - 240) * 262144 + (128 + (c / 4096) mod 64 - 128) * 4096
             + (128 + (c / 64) mod 64 - 128) * 64 + (128 + c mod 64 - 128))%N = c)
      as -> by N_arith.
    cbn [andb]. rewrite Heqb2.
    assert ((65536 <=? c)%N = true) as -> by (apply N.leb_le; N_arith).
    reflexivity.
Qed.

Lemma utf8_encode_list_byte s : forall l,
  utf8_encode_list s = Some l -> Forall (fun b => (b < 256)%N) l.
Proof.
  induction s as [| c s IH]; intros l; cbn [utf8_encode_list].
  - intros [= <-]. apply Forall_nil_2.
  - destruct (utf8_encode_cp c) as [bs |] eqn:Hc; [| discriminate].
    destruct (utf8_encode_list s) as [r |]; [| discriminate].
    intros [= <-]. apply Forall_app. split; [eapply utf8_encode_cp_byte; eauto | auto].
Qed.

Lemma utf8_decode_encode_list s : forall l,
  utf8_encode_list s = Some l -> utf8_decode_list l = Some s.
Proof.
  induction s as [| c s IH]; intros l; cbn [utf8_encode_list].
  - intros [= <-]. reflexivity.
  - destruct (utf8_encode_cp c) as [bs |] eqn:Hc; [| discriminate].
    destruct (utf8_encode_list s) as [r |]; [| discriminate].
    intros [= <-]. rewrite (utf8_decode_encode_cp _ _ _ Hc), (IH r eq_refl).
    reflexivity.
Qed.

Lemma list_of_bytes_of_list l :
  Forall (fun b => (b < 256)%N) l -> list_of_bytes (bytes_of_list l) = l.
Proof.
  induction 1 as [| b l Hb _ IH]; cbn [bytes_of_list list_of_bytes]; [reflexivity |].
  now rewrite N_ascii_embedding, IH.
Qed.

Lemma bytes_decode_encode s l :
  utf8_encode_list s = Some l -> bytes_decode_utf8 (bytes_of_list l) = Ok s.
Proof.
  intros Hs. unfold bytes_decode_utf8.
  rewrite list_of_bytes_of_list by (eapply utf8_encode_list_byte; eauto).
  now rewrite (utf8_decode_encode_list _ _ Hs).
Qed.

(** ** The generic writers on the reference protocol *)

Section Writers_on_reference_protocol.
Variable c : protocol_class.

Lemma CurveKeyPair_write_generic_ref x p :
  CurveKeyPair_write_generic (prot := ref_protocol c) (x, p)
  = Ok (tt, (x, p ++ CurveKeyPair_items x)).
Proof.
  destruct x as [[a |] [b |]]; unfold CurveKeyPair_write_generic, CurveKeyPair_items;
    cbn; unfold bind; cbn; rewrite <- ?app_assoc; reflexivity.
Qed.

Lemma KnownKeys_write_entries_ref x kvs : forall p,
  for_each kvs (KnownKeys_write_entry (prot := ref_protocol c)) (x, p)
  = match KnownKeys_wire_pairs kvs with
    | Some ps => Ok (tt, (x, p ++ string_pairs ps))
    | None => Raise UnicodeEncodeError
    end.
Proof.
  induction kvs as [| [[s | b] v] kvs IH]; intros p;
    cbn [for_each KnownKeys_wire_pairs].
  - now rewrite app_nil_r.
  - unfold bind at 1. unfold KnownKeys_write_entry at 1.
    cbn [isinstance_bytes negb]. change (UTF8STRINGS && true) with true. cbn iota.
    unfold bind at 1. unfold bind at 1.
    cbn [lift_result encode_utf8]. unfold str_encode_utf8.
    destruct (utf8_encode_list s) as [l |]; [| reflexivity].
    cbn. rewrite IH. destruct (KnownKeys_wire_pairs kvs); [| reflexivity].
    cbn [string_pairs]. rewrite <- !app_assoc. reflexivity.
  - unfold bind at 1. unfold KnownKeys_write_entry at 1.
    cbn [isinstance_bytes negb]. change (UTF8STRINGS && false) with false. cbn iota.
    unfold bind at 1. cbn. rewrite IH.
    destruct (KnownKeys_wire_pairs kvs); [| reflexivity].
    cbn [string_pairs]. rewrite <- !app_assoc. reflexivity.
Qed.

Lemma KnownKeys_wire_pairs_length kvs : forall ps,
  KnownKeys_wire_pairs kvs = Some ps -> List.length ps = List.length kvs.
Proof.
  induction kvs as [| [[s | b] v] kvs IH]; intros ps; cbn [KnownKeys_wire_pairs].
  - intros [= <-]. reflexivity.
  - destruct (utf8_encode_list s); [| discriminate].
    destruct (KnownKeys_wire_pairs kvs) as [r |]; [| discriminate].
    intros [= <-]. simpl. now rewrite (IH r).
  - destruct (KnownKeys_wire_pairs kvs) as [r |]; [| discriminate].
    intros [= <-]. simpl. now rewrite (IH r).
Qed.

Lemma KnownKeys_write_generic_ref dict_items x p :
  KnownKeys_write_generic (prot := ref_protocol c) dict_items (x, p)
  = match KnownKeys_sent dict_items x with
    | Ok w => Ok (tt, (x, p ++ w))
    | Raise e => Raise e
    | OutOfFuel => OutOfFuel
    end.
Proof.
  destruct x as [[d |]]; unfold KnownKeys_write_generic, KnownKeys_sent; cbn [keys].
  - erewrite bind_Ok by reflexivity. erewrite bind_Ok by reflexivity.
    cbn [keys]. unfold bind at 1. unfold bind at 1.
    cbn [on_prot writeFieldBegin ref_protocol Ref.emit].
    unfold bind at 1. cbn [on_prot writeMapBegin ref_protocol Ref.emit].
    unfold bind at 1. rewrite KnownKeys_write_entries_ref.
    destruct (KnownKeys_wire_pairs (dict_items d)) as [ps |] eqn:Hps; [| reflexivity].
    unfold struct_stream, field_entry, map_payload.
    cbn. unfold bind. cbn.
    cbn [app]. rewrite <- !app_assoc. reflexivity.
  - cbn. unfold bind. cbn. unfold KnownKeys_items, struct_stream.
    rewrite <- !app_assoc. reflexivity.
Qed.
End Writers_on_reference_protocol.

(** ** What is written is read back *)

Lemma KnownKeys_entries_wire_pairs kvs :
  (forall k v, (k, v) ∈ kvs -> exists s, k = PyStr s /\ utf8_encode_list s <> None) ->
  NoDup kvs.*1 ->
  exists ps, KnownKeys_wire_pairs kvs = Some ps
             /\ forall d0, KnownKeys_entries ps d0 = Ok (list_to_map kvs ∪ d0).
Proof.
  induction kvs as [| [k v] kvs IH]; intros Hkeys Hnodup.
  - exists []. split; [reflexivity |]. intros d0. cbn. now rewrite (left_id ∅ (∪)).
  - destruct (Hkeys k v) as (s & -> & Hs); [left |].
    rewrite fmap_cons in Hnodup. apply NoDup_cons in Hnodup as [Hk Hnodup].
    destruct IH as (ps & Hps & Hent); [| exact Hnodup |].
    { intros k' v' Hin. apply (Hkeys k' v'). now right. }
    destruct (utf8_encode_list s) as [l |] eqn:Hl; [| congruence].
    exists ((bytes_of_list l, v) :: ps). split.
    + cbn [KnownKeys_wire_pairs]. now rewrite Hl, Hps.
    + intros d0. cbn [KnownKeys_entries].
      rewrite (bytes_decode_encode _ _ Hl), Hent.
      f_equal. cbn [list_to_map foldr]. cbn.
      rewrite <- insert_union_l. symmetry. apply insert_union_r.
      now apply not_elem_of_list_to_map_1.
Qed.

Lemma KnownKeys_text_keys_sent (l : list (pystr * bytes)) d :
  l ≡ₚ map_to_list d ->
  text_keys d ->
  exists ps, KnownKeys_wire_pairs l = Some ps
             /\ List.length ps = size d
             /\ KnownKeys_entries ps ∅ = Ok d.
Proof.
  intros Hl Hd.
  assert (Hnodup : NoDup l.*1).
  { rewrite Hl. apply NoDup_fst_map_to_list. }
  destruct (KnownKeys_entries_wire_pairs l) as (ps & Hps & Hent).
  - intros k v Hin. apply (Hd k v). rewrite Hl in Hin. now apply elem_of_map_to_list.
  - exact Hnodup.
  - exists ps. split; [exact Hps |]. split.
    + rewrite (KnownKeys_wire_pairs_length _ _ Hps), Hl. apply length_map_to_list.
    + rewrite Hent, (right_id ∅ (∪)).
      rewrite (list_to_map_proper l (map_to_list d) Hnodup Hl).
      now rewrite list_to_map_to_list.
Qed.

(** ** Unknown fields do not change what is decoded *)

Lemma KnownKeys_absorb_other fs1 f fs2 : forall self,
  KnownKeys_absorb (fs1 ++ OtherField f :: fs2) self = KnownKeys_absorb (fs1 ++ fs2) self.
Proof.
  induction fs1 as [| [name ktype vtype size pairs | g] fs1 IH]; intros self;
    cbn [app KnownKeys_absorb]; [reflexivity | | apply IH].
  destruct (KnownKeys_entries pairs ∅); [apply IH | reflexivity | reflexivity].
Qed.

Lemma KnownKeys_absorb_others ws : forall self,
  KnownKeys_absorb (map OtherField ws) self = Ok self.
Proof. induction ws as [| w ws IH]; intros self; cbn; [reflexivity | apply IH]. Qed.

Lemma CurveKeyPair_absorb_field_unknown f self :
  wf_id f <> 1 -> wf_id f <> 2 -> CurveKeyPair_absorb_field f self = self.
Proof.
  intros H1 H2. unfold CurveKeyPair_absorb_field.
  destruct (wf_type f); try reflexivity.
  destruct (wf_payload f) as [| [] [|]]; try reflexivity.
  destruct (Z.eqb_spec (wf_id f) 1); [contradiction |].
  destruct (Z.eqb_spec (wf_id f) 2); [contradiction |]. reflexivity.
Qed.

Lemma CurveKeyPair_absorb_unknown fs1 f fs2 self :
  wf_id f <> 1 -> wf_id f <> 2 ->
  CurveKeyPair_absorb (fs1 ++ f :: fs2) self = CurveKeyPair_absorb (fs1 ++ fs2) self.
Proof.
  intros H1 H2. unfold CurveKeyPair_absorb.
  rewrite !fold_left_app. cbn [fold_left].
  now rewrite CurveKeyPair_absorb_field_unknown.
Qed.

Lemma CurveKeyPair_absorb_privateKey fs : forall self,
  Forall (fun f => wf_id f <> 1) fs ->
  privateKey (CurveKeyPair_absorb fs self) = privateKey self.
Proof.
  induction fs as [| f fs IH]; intros self Hfs; [reflexivity |].
  apply Forall_cons in Hfs as [Hf Hfs].
  unfold CurveKeyPair_absorb in *. cbn [fold_left]. rewrite IH by exact Hfs.
  unfold CurveKeyPair_absorb_field.
  destruct (wf_type f); try reflexivity.
  destruct (wf_payload f) as [| [] [|]]; try reflexivity.
  destruct (Z.eqb_spec (wf_id f) 1); [contradiction |].
  destruct (wf_id f =? 2); reflexivity.
Qed.

Lemma CurveKeyPair_absorb_publicKey fs : forall self,
  Forall (fun f => wf_id f <> 2) fs ->
  publicKey (CurveKeyPair_absorb fs self) = publicKey self.
Proof.
  induction fs as [| f fs IH]; intros self Hfs; [reflexivity |].
  apply Forall_cons in Hfs as [Hf Hfs].
  unfold CurveKeyPair_absorb in *. cbn [fold_left]. rewrite IH by exact Hfs.
  unfold CurveKeyPair_absorb_field.
  destruct (wf_type f); try reflexivity.
  destruct (wf_payload f) as [| [] [|]]; try reflexivity.
  destruct (wf_id f =? 1); [reflexivity |].
  destruct (Z.eqb_spec (wf_id f) 2); [contradiction | reflexivity].
Qed.

Lemma CurveKeyPair_items_fields x :
  CurveKeyPair_items x
  = struct_stream "CurveKeyPair" (wire_fields_items (CurveKeyPair_fields x)).
Proof. destruct x as [[a |] [b |]]; reflexivity. Qed.

Lemma CurveKeyPair_fields_ok x : Forall wire_field_ok (CurveKeyPair_fields x).
Proof.
  destruct x as [[a |] [b |]]; unfold CurveKeyPair_fields; cbn;
    repeat (apply Forall_cons_2; [apply payload_string |]); apply Forall_nil_2.
Qed.

Lemma CurveKeyPair_absorb_fields x :
  CurveKeyPair_absorb (CurveKeyPair_fields x) (CurveKeyPair__init__ None None) = x.
Proof. destruct x as [[a |] [b |]]; reflexivity. Qed.

Lemma CurveKeyPair_round_trip c x n :
  CurveKeyPair_read_generic (prot := ref_protocol c)
    (S (List.length (CurveKeyPair_items x) + n))
    (CurveKeyPair__init__ None None, CurveKeyPair_items x)
  = Ok (tt, (x, [])).
Proof.
  rewrite <- (app_nil_r (CurveKeyPair_items x)) at 2.
  rewrite CurveKeyPair_items_fields at 2.
  rewrite CurveKeyPair_read_generic_ref.
  - now rewrite CurveKeyPair_absorb_fields.
  - apply CurveKeyPair_fields_ok.
  - destruct x as [[a |] [b |]]; cbn; lia.
Qed.

Lemma KnownKeys_round_trip c ps n self :
  KnownKeys_read_generic (prot := ref_protocol c)
    (S (List.length (KnownKeys_items (Some ps)) + n))
    (self, KnownKeys_items (Some ps))
  = match KnownKeys_entries ps ∅ with
    | Ok d => Ok (tt, ({| keys := Some d |}, []))
    | Raise e => Raise e
    | OutOfFuel => OutOfFuel
    end.
Proof.
  rewrite <- (app_nil_r (KnownKeys_items (Some ps))) at 2.
  unfold KnownKeys_items at 2.
  change (field_entry "keys" MAP 1 (map_payload STRING STRING (Z.of_nat (List.length ps)) ps))
    with (KnownKeys_field_items
            (KeysField "keys" STRING STRING (Z.of_nat (List.length ps)) ps)).
  rewrite <- (app_nil_r (KnownKeys_field_items _)).
  change (KnownKeys_field_items ?f ++ []) with (KnownKeys_fields_items [f]).
  rewrite KnownKeys_read_generic_ref.
  - cbn [KnownKeys_absorb]. destruct (KnownKeys_entries ps ∅); reflexivity.
  - apply Forall_cons_2; [left; reflexivity | apply Forall_nil_2].
  - unfold KnownKeys_items, struct_stream, KnownKeys_fields_items. cbn [flat_map].
    rewrite app_nil_r. cbn [KnownKeys_field_items]. simpl. rewrite !length_app. simpl. lia.
Qed.

(** C1 (as amended): a KnownKeys instance whose map has only [str] keys that
    UTF-8 can encode, and any CurveKeyPair instance, is written by the generic
    writer, in whatever order the dict yields its entries, to a stream that
    the generic reader decodes, with enough fuel for its loops, into an
    instance equal to the original. *)
Theorem C1_generic_round_trip (c : protocol_class)
    (dict_items : gmap pystr bytes -> list (pystr * bytes)) (d : gmap pystr bytes)
    (x : CurveKeyPair) (n : nat) :
  lists_entries dict_items d ->
  text_keys d ->
  (exists w,
      KnownKeys_write_generic (prot := ref_protocol c) dict_items
        (KnownKeys__init__ (Some d), [])
      = Ok (tt, (KnownKeys__init__ (Some d), w))
      /\ exists y,
          KnownKeys_read_generic (prot := ref_protocol c) (S (List.length w + n))
            (KnownKeys__init__ None, w) = Ok (tt, (y, []))
          /\ KnownKeys___eq__ y (ObjKnownKeys (KnownKeys__init__ (Some d))) = true)
  /\ (exists w,
         CurveKeyPair_write_generic (prot := ref_protocol c) (x, []) = Ok (tt, (x, w))
         /\ exists y,
             CurveKeyPair_read_generic (prot := ref_protocol c) (S (List.length w + n))
               (CurveKeyPair__init__ None None, w) = Ok (tt, (y, []))
             /\ CurveKeyPair___eq__ y (ObjCurveKeyPair x) = true).
Proof.
  intros Hl Hd. split.
  - destruct (KnownKeys_text_keys_sent (dict_items d) d Hl Hd) as (ps & Hps & Hlen & Hent).
    exists (KnownKeys_items (Some ps)). split.
    + rewrite KnownKeys_write_generic_ref. unfold KnownKeys_sent, KnownKeys__init__.
      cbn [keys]. rewrite Hps. unfold KnownKeys_items. now rewrite Hlen.
    + exists (KnownKeys__init__ (Some d)). split.
      * rewrite KnownKeys_round_trip, Hent. reflexivity.
      * cbn. now apply bool_decide_eq_true.
  - exists (CurveKeyPair_items x). split.
    + now rewrite CurveKeyPair_write_generic_ref.
    + exists x. split; [apply CurveKeyPair_round_trip |].
      cbn. apply andb_true_iff; split; now apply bool_decide_eq_true.
Qed.

Lemma C1_generic_round_trip_witness :
  let a : pystr * bytes := (PyStr [110; 111; 100; 101; 65]%N, bytes_of_list [222; 173; 190; 239]%N) in
  let b : pystr * bytes := (PyStr [110; 111; 100; 101; 66]%N, bytes_of_list [202; 254]%N) in
  let d : gmap pystr bytes := list_to_map [b; a] in
  let dict_items : gmap pystr bytes -> list (pystr * bytes) := fun _ => [b; a] in
  lists_entries dict_items d
  /\ text_keys d
  /\ exists w,
      KnownKeys_write_generic (prot := ref_protocol plain_protocol) dict_items
        (KnownKeys__init__ (Some d), [])
      = Ok (tt, (KnownKeys__init__ (Some d), w))
      /\ exists y,
          KnownKeys_read_generic (prot := ref_protocol plain_protocol)
            (S (List.length w + 0)) (KnownKeys__init__ None, w) = Ok (tt, (y, []))
          /\ KnownKeys___eq__ y (ObjKnownKeys (KnownKeys__init__ (Some d))) = true.
Proof.
  intros a b d dict_items.
  assert (Hl : lists_entries dict_items d).
  { unfold lists_entries, dict_items, d. symmetry. apply map_to_list_to_map.
    cbn. apply NoDup_cons_2; [| apply NoDup_singleton].
    intros Hin. apply list_elem_of_singleton in Hin. discriminate. }
  assert (Hd : text_keys d).
  { intros k v Hk. apply elem_of_list_to_map_2 in Hk. unfold a, b in Hk.
    apply elem_of_cons in Hk as [Hk | Hk];
      [| apply elem_of_cons in Hk as [Hk | Hk]; [| inversion Hk]];
      injection Hk as -> ->; (eexists; split; [reflexivity | discriminate]). }
  split; [exact Hl |]. split; [exact Hd |].
  exact (proj1 (C1_generic_round_trip plain_protocol dict_items d
                  (CurveKeyPair__init__ None None) 0 Hl Hd)).
Defined.

(** C1 as stated fails: a map keyed by a [bytes] object is written as it is
    and read back keyed by the decoded [str], which is another key. *)
Lemma C1_counterexample :
  let x := KnownKeys__init__ (Some {[ PyBytes "a" := "x" ]}) in
  let dict_items : gmap pystr bytes -> list (pystr * bytes) :=
    fun _ => [(PyBytes "a", "x")] in
  lists_entries dict_items {[ PyBytes "a" := "x" ]}
  /\ exists w y,
    KnownKeys_write_generic (prot := ref_protocol plain_protocol) dict_items (x, [])
    = Ok (tt, (x, w))
    /\ KnownKeys_read_generic (prot := ref_protocol plain_protocol) (S (List.length w))
         (KnownKeys__init__ None, w) = Ok (tt, (y, []))
    /\ KnownKeys___eq__ y (ObjKnownKeys x) = false.
Proof.
  intros x dict_items. split.
  { unfold lists_entries, dict_items. now rewrite map_to_list_singleton. }
  exists (KnownKeys_items (Some [("a", "x")])),
         (KnownKeys__init__ (Some {[ PyStr [97%N] := "x" ]})).
  split; [| split].
  - rewrite KnownKeys_write_generic_ref. unfold KnownKeys_sent, x, KnownKeys__init__.
    vm_compute. reflexivity.
  - vm_compute. reflexivity.
  - cbn. apply bool_decide_eq_false. intros H.
    apply (f_equal (fun o : option (gmap pystr bytes) =>
                      match o with Some m => m !! PyBytes "a" | None => None end)) in H.
    rewrite lookup_singleton_eq, lookup_singleton_ne in H; discriminate.
Qed.

Lemma KnownKeys_fields_items_others ws :
  KnownKeys_fields_items (map OtherField ws) = wire_fields_items ws.
Proof.
  unfold KnownKeys_fields_items, wire_fields_items.
  induction ws as [| w ws IH]; cbn; [reflexivity | now rewrite IH].
Qed.

(** C2: a KnownKeys stream without an entry for field 1 makes the generic
    reader raise the missing-required-field exception that names 'keys' and
    'KnownKeys'; a CurveKeyPair stream is decoded, and a field without an
    entry is left unset. *)
Theorem C2_required_field_enforced (c : protocol_class) (name : string)
    (ws fs : list wire_field) (rest : list item) (n : nat) :
  Forall wire_field_ok ws ->
  Forall (fun f => wf_id f <> 1) ws ->
  Forall wire_field_ok fs ->
  KnownKeys_read_generic (prot := ref_protocol c)
    (S (List.length (wire_fields_items ws) + n))
    (KnownKeys__init__ None, struct_stream name (wire_fields_items ws) ++ rest)
  = Raise (TProtocolException MISSING_REQUIRED_FIELD
             "Required field 'keys' was not found in serialized data! Struct: KnownKeys")
  /\ exists y,
      CurveKeyPair_read_generic (prot := ref_protocol c) (S (List.length fs + n))
        (CurveKeyPair__init__ None None, struct_stream name (wire_fields_items fs) ++ rest)
      = Ok (tt, (y, rest))
      /\ (Forall (fun f => wf_id f <> 1) fs -> privateKey y = None)
      /\ (Forall (fun f => wf_id f <> 2) fs -> publicKey y = None).
Proof.
  intros Hws Hids Hfs. split.
  - rewrite <- KnownKeys_fields_items_others.
    rewrite KnownKeys_read_generic_ref.
    + now rewrite KnownKeys_absorb_others.
    + apply Forall_fmap. apply Forall_forall. intros f Hf. cbn.
      rewrite Forall_forall in Hws, Hids. split; [now apply Hws | left; now apply Hids].
    + lia.
  - eexists. split; [apply CurveKeyPair_read_generic_ref; [exact Hfs | lia] |].
    split; intros Hno.
    + now rewrite CurveKeyPair_absorb_privateKey.
    + now rewrite CurveKeyPair_absorb_publicKey.
Qed.

Lemma C2_required_field_enforced_witness :
  let ws := [ {| wf_name := "extra"; wf_type := I32; wf_id := 7;
                 wf_payload := [IScalar I32 5] |} ] in
  let fs := [ {| wf_name := "publicKey"; wf_type := STRING; wf_id := 2;
                 wf_payload := [IString "pub"] |} ] in
  Forall wire_field_ok ws
  /\ Forall (fun f => wf_id f <> 1) ws
  /\ Forall wire_field_ok fs
  /\ KnownKeys_read_generic (prot := ref_protocol plain_protocol)
       (S (List.length (wire_fields_items ws) + 0))
       (KnownKeys__init__ None, struct_stream "KnownKeys" (wire_fields_items ws) ++ [])
     = Raise (TProtocolException MISSING_REQUIRED_FIELD
                "Required field 'keys' was not found in serialized data! Struct: KnownKeys").
Proof.
  intros ws fs.
  assert (Hws : Forall wire_field_ok ws).
  { apply Forall_cons_2; [| apply Forall_nil_2]. now apply payload_scalar. }
  assert (Hids : Forall (fun f => wf_id f <> 1) ws).
  { apply Forall_cons_2; [| apply Forall_nil_2]. cbn. lia. }
  assert (Hfs : Forall wire_field_ok fs).
  { apply Forall_cons_2; [| apply Forall_nil_2]. apply payload_string. }
  split; [exact Hws |]. split; [exact Hids |]. split; [exact Hfs |].
  exact (proj1 (C2_required_field_enforced plain_protocol "KnownKeys" ws fs [] 0
                  Hws Hids Hfs)).
Defined.

(** C3: a map of field 1 sent with its element count and the same pairs
    sent with a negative count and ended by the peek are decoded alike, to
    the mapping built from the pairs in their order. *)
Theorem C3_map_termination_equivalence (c : protocol_class) (name fname : string)
    (ktype vtype : TType) (size : Z) (pairs : list (bytes * bytes))
    (self : KnownKeys) (rest : list item) (n : nat) :
  size < 0 ->
  let counted := map_payload ktype vtype (Z.of_nat (List.length pairs)) pairs in
  let peeked := map_payload ktype vtype size pairs in
  let fuel := S (List.length (field_entry fname MAP 1 counted) + n) in
  KnownKeys_read_generic (prot := ref_protocol c) fuel
    (self, struct_stream name (field_entry fname MAP 1 counted) ++ rest)
  = KnownKeys_read_generic (prot := ref_protocol c) fuel
      (self, struct_stream name (field_entry fname MAP 1 peeked) ++ rest)
  /\ KnownKeys_read_generic (prot := ref_protocol c) fuel
       (self, struct_stream name (field_entry fname MAP 1 peeked) ++ rest)
     = match KnownKeys_entries pairs ∅ with
       | Ok d => Ok (tt, ({| keys := Some d |}, rest))
       | Raise e => Raise e
       | OutOfFuel => OutOfFuel
       end.
Proof.
  intros Hneg counted peeked fuel.
  assert (Hread : forall sz, size_ok sz (List.length pairs) ->
            KnownKeys_read_generic (prot := ref_protocol c) fuel
              (self, struct_stream name
                       (field_entry fname MAP 1 (map_payload ktype vtype sz pairs)) ++ rest)
            = match KnownKeys_entries pairs ∅ with
              | Ok d => Ok (tt, ({| keys := Some d |}, rest))
              | Raise e => Raise e
              | OutOfFuel => OutOfFuel
              end).
  { intros sz Hsz.
    change (field_entry fname MAP 1 (map_payload ktype vtype sz pairs))
      with (KnownKeys_field_items (KeysField fname ktype vtype sz pairs)).
    rewrite <- (app_nil_r (KnownKeys_field_items _)).
    change (KnownKeys_field_items ?f ++ []) with (KnownKeys_fields_items [f]).
    rewrite KnownKeys_read_generic_ref.
    - cbn [KnownKeys_absorb]. destruct (KnownKeys_entries pairs ∅); reflexivity.
    - apply Forall_cons_2; [exact Hsz | apply Forall_nil_2].
    - unfold fuel, counted, KnownKeys_fields_items. cbn [flat_map].
      rewrite app_nil_r. unfold KnownKeys_field_items, field_entry, map_payload.
      simpl. rewrite !length_app. simpl. lia. }
  split.
  - unfold counted, peeked. rewrite !Hread; [reflexivity | now right | now left].
  - unfold peeked. apply Hread. now right.
Qed.

Lemma C3_map_termination_equivalence_witness :
  let pairs := [("a", "x"); ("b", "y"); ("a", "z")] in
  (-1 < 0)
  /\ KnownKeys_read_generic (prot := ref_protocol plain_protocol) 11
       (KnownKeys__init__ None,
        struct_stream "KnownKeys"
          (field_entry "keys" MAP 1 (map_payload STRING STRING 3 pairs)) ++ [])
     = KnownKeys_read_generic (prot := ref_protocol plain_protocol) 11
         (KnownKeys__init__ None,
          struct_stream "KnownKeys"
            (field_entry "keys" MAP 1 (map_payload STRING STRING (-1) pairs)) ++ []).
Proof.
  intros pairs.
  assert (H : -1 < 0) by lia.
  split; [exact H |].
  exact (proj1 (C3_map_termination_equivalence plain_protocol "KnownKeys" "keys"
                  STRING STRING (-1) pairs (KnownKeys__init__ None) [] 0 H)).
Defined.

Lemma KnownKeys_fields_items_length_insert fs1 f fs2 :
  (List.length (KnownKeys_fields_items (fs1 ++ fs2))
   <= List.length (KnownKeys_fields_items (fs1 ++ f :: fs2)))%nat.
Proof.
  unfold KnownKeys_fields_items. rewrite !flat_map_app. cbn [flat_map].
  rewrite !length_app. lia.
Qed.

(** C4: one more field entry, of an id that the schema does not have and
    with any well-formed payload (nested containers included), is skipped and
    the read goes on.  The generic reader of KnownKeys, with enough fuel for
    its loops, ends as the other entries alone make it end: it hands back the
    instance they decode, or raises what they make it raise; in particular,
    next to a map entry for field 1 whose keys decode to [d], before it or
    after it, the read succeeds and the instance holds [d].  The generic
    reader of CurveKeyPair succeeds and hands back the instance that the
    other entries decode; in particular the entries of an instance [x] with
    the unknown entry put anywhere among them are read back as [x].  And so
    the outcome with the entry is the outcome without it. *)
Theorem C4_unknown_field_skipped (c : protocol_class) (name : string)
    (extra : wire_field) (ks1 ks2 : list KnownKeys_field) (fs1 fs2 : list wire_field)
    (kk : KnownKeys) (ckp : CurveKeyPair) (rest : list item) (n : nat) :
  wire_field_ok extra ->
  Forall KnownKeys_field_ok (ks1 ++ ks2) ->
  Forall wire_field_ok (fs1 ++ fs2) ->
  (wf_id extra <> 1 ->
   let fuel := S (List.length (KnownKeys_fields_items (ks1 ++ OtherField extra :: ks2)) + n) in
   let stream :=
     struct_stream name (KnownKeys_fields_items (ks1 ++ OtherField extra :: ks2)) ++ rest in
   KnownKeys_read_generic (prot := ref_protocol c) fuel (kk, stream)
   = KnownKeys_read_generic (prot := ref_protocol c) fuel
       (kk, struct_stream name (KnownKeys_fields_items (ks1 ++ ks2)) ++ rest)
   /\ KnownKeys_read_generic (prot := ref_protocol c) fuel (kk, stream)
      = match KnownKeys_absorb (ks1 ++ ks2) kk with
        | Ok self' =>
            match keys self' with
            | Some _ => Ok (tt, (self', rest))
            | None =>
                Raise (TProtocolException MISSING_REQUIRED_FIELD
                         "Required field 'keys' was not found in serialized data! Struct: KnownKeys")
            end
        | Raise e => Raise e
        | OutOfFuel => OutOfFuel
        end
   /\ (forall fname ktype vtype size pairs d,
         ks1 ++ ks2 = [KeysField fname ktype vtype size pairs] ->
         KnownKeys_entries pairs ∅ = Ok d ->
         KnownKeys_read_generic (prot := ref_protocol c) fuel (kk, stream)
         = Ok (tt, ({| keys := Some d |}, rest))))
  /\ (wf_id extra <> 1 -> wf_id extra <> 2 ->
      let fuel := S (List.length (fs1 ++ extra :: fs2) + n) in
      let stream := struct_stream name (wire_fields_items (fs1 ++ extra :: fs2)) ++ rest in
      CurveKeyPair_read_generic (prot := ref_protocol c) fuel (ckp, stream)
      = CurveKeyPair_read_generic (prot := ref_protocol c) fuel
          (ckp, struct_stream name (wire_fields_items (fs1 ++ fs2)) ++ rest)
      /\ CurveKeyPair_read_generic (prot := ref_protocol c) fuel (ckp, stream)
         = Ok (tt, (CurveKeyPair_absorb (fs1 ++ fs2) ckp, rest))
      /\ (forall x,
            fs1 ++ fs2 = CurveKeyPair_fields x ->
            CurveKeyPair_read_generic (prot := ref_protocol c) fuel
              (CurveKeyPair__init__ None None, stream)
            = Ok (tt, (x, rest)))).
Proof.
  intros Hextra Hks Hfs. split.
  - intros Hid fuel stream.
    assert (Hwith : Forall KnownKeys_field_ok (ks1 ++ OtherField extra :: ks2)).
    { apply Forall_app in Hks as [Hks1 Hks2]. apply Forall_app. split; [exact Hks1 |].
      apply Forall_cons_2; [| exact Hks2]. split; [exact Hextra | now left]. }
    assert (Hread : forall self,
               KnownKeys_read_generic (prot := ref_protocol c) fuel (self, stream)
               = match KnownKeys_absorb (ks1 ++ ks2) self with
                 | Ok self' =>
                     match keys self' with
                     | Some _ => Ok (tt, (self', rest))
                     | None => Raise KnownKeys_missing_keys
                     end
                 | Raise e => Raise e
                 | OutOfFuel => OutOfFuel
                 end).
    { intros self. unfold stream.
      rewrite KnownKeys_read_generic_ref; [| exact Hwith | unfold fuel; lia].
      now rewrite KnownKeys_absorb_other. }
    split; [| split].
    + rewrite Hread, KnownKeys_read_generic_ref; [reflexivity | exact Hks |].
      pose proof (KnownKeys_fields_items_length_insert ks1 (OtherField extra) ks2).
      unfold fuel. lia.
    + apply Hread.
    + intros fname ktype vtype size pairs d Heq Hent.
      rewrite Hread, Heq. cbn [KnownKeys_absorb]. rewrite Hent. reflexivity.
  - intros Hid1 Hid2 fuel stream.
    assert (Hwith : Forall wire_field_ok (fs1 ++ extra :: fs2)).
    { apply Forall_app in Hfs as [Hfs1 Hfs2]. apply Forall_app. split; [exact Hfs1 |].
      apply Forall_cons_2; [exact Hextra | exact Hfs2]. }
    assert (Hread : forall self,
               CurveKeyPair_read_generic (prot := ref_protocol c) fuel (self, stream)
               = Ok (tt, (CurveKeyPair_absorb (fs1 ++ fs2) self, rest))).
    { intros self. unfold stream.
      rewrite CurveKeyPair_read_generic_ref; [| exact Hwith | unfold fuel; lia].
      now rewrite CurveKeyPair_absorb_unknown. }
    split; [| split].
    + rewrite Hread, CurveKeyPair_read_generic_ref; [reflexivity | exact Hfs |].
      unfold fuel. rewrite !length_app. cbn [List.length]. lia.
    + apply Hread.
    + intros x Heq. rewrite Hread, Heq, CurveKeyPair_absorb_fields. reflexivity.
Qed.

Lemma C4_unknown_field_skipped_witness :
  let nested :=
    [ IMapBegin STRING STRUCT 1; IString "k";
      IStructBegin "inner"; IFieldBegin "l" LIST 1;
      IListBegin I32 (-1); IScalar I32 4; IScalar I32 5; IListEnd;
      IFieldEnd; IFieldStop; IStructEnd; IMapEnd ] in
  let extra := {| wf_name := "later"; wf_type := MAP; wf_id := 9; wf_payload := nested |} in
  let ks1 := [KeysField "keys" STRING STRING 1 [("a", "x")]] in
  let fs1 := [ {| wf_name := "privateKey"; wf_type := STRING; wf_id := 1;
                  wf_payload := [IString "priv"] |} ] in
  let fs2 := [ {| wf_name := "publicKey"; wf_type := STRING; wf_id := 2;
                  wf_payload := [IString "pub"] |} ] in
  wire_field_ok extra
  /\ Forall KnownKeys_field_ok (ks1 ++ [])
  /\ Forall wire_field_ok (fs1 ++ fs2)
  /\ wf_id extra <> 1
  /\ wf_id extra <> 2
  /\ KnownKeys_read_generic (prot := ref_protocol plain_protocol)
       (S (List.length (KnownKeys_fields_items (ks1 ++ OtherField extra :: [])) + 0))
       (KnownKeys__init__ None,
        struct_stream "KnownKeys" (KnownKeys_fields_items (ks1 ++ OtherField extra :: []))
        ++ [])
     = Ok (tt, ({| keys := Some {[ PyStr [97%N] := "x" ]} |}, []))
  /\ CurveKeyPair_read_generic (prot := ref_protocol plain_protocol)
       (S (List.length (fs1 ++ extra :: fs2) + 0))
       (CurveKeyPair__init__ None None,
        struct_stream "CurveKeyPair" (wire_fields_items (fs1 ++ extra :: fs2)) ++ [])
     = Ok (tt, (CurveKeyPair__init__ (Some "priv") (Some "pub"), [])).
Proof.
  intros nested extra ks1 fs1 fs2.
  assert (Hextra : wire_field_ok extra).
  { unfold wire_field_ok, extra, nested. cbn [wf_type wf_payload].
    apply (payload_map STRING STRUCT 1 1
             [IString "k"; IStructBegin "inner"; IFieldBegin "l" LIST 1;
              IListBegin I32 (-1); IScalar I32 4; IScalar I32 5; IListEnd;
              IFieldEnd; IFieldStop; IStructEnd]); [now left |].
    apply (entry_seq_cons STRING STRUCT 0 [IString "k"]
             [IStructBegin "inner"; IFieldBegin "l" LIST 1;
              IListBegin I32 (-1); IScalar I32 4; IScalar I32 5; IListEnd;
              IFieldEnd; IFieldStop; IStructEnd] []);
      [apply payload_string | | apply entry_seq_nil].
    apply (payload_struct "inner"
             [IFieldBegin "l" LIST 1;
              IListBegin I32 (-1); IScalar I32 4; IScalar I32 5; IListEnd; IFieldEnd]).
    apply (field_seq_cons "l" LIST 1
             [IListBegin I32 (-1); IScalar I32 4; IScalar I32 5; IListEnd] []);
      [| apply field_seq_nil].
    apply (payload_list I32 (-1) 2 [IScalar I32 4; IScalar I32 5]); [right; lia |].
    apply (elem_seq_cons I32 1 [IScalar I32 4] [IScalar I32 5]);
      [now apply payload_scalar |].
    apply (elem_seq_cons I32 0 [IScalar I32 5] []);
      [now apply payload_scalar | apply elem_seq_nil]. }
  assert (Hks : Forall KnownKeys_field_ok (ks1 ++ [])).
  { apply Forall_cons_2; [now left | apply Forall_nil_2]. }
  assert (Hfs : Forall wire_field_ok (fs1 ++ fs2)).
  { apply Forall_cons_2; [apply payload_string |].
    apply Forall_cons_2; [apply payload_string | apply Forall_nil_2]. }
  assert (Hid1 : wf_id extra <> 1) by (cbn; lia).
  assert (Hid2 : wf_id extra <> 2) by (cbn; lia).
  split; [exact Hextra |]. split; [exact Hks |]. split; [exact Hfs |].
  split; [exact Hid1 |]. split; [exact Hid2 |].
  split.
  - exact (proj2 (proj2 (proj1 (C4_unknown_field_skipped plain_protocol "KnownKeys" extra
                                  ks1 [] fs1 fs2 (KnownKeys__init__ None)
                                  (CurveKeyPair__init__ None None) [] 0 Hextra Hks Hfs)
                           Hid1))
             "keys" STRING STRING 1 [("a", "x")] {[ PyStr [97%N] := "x" ]}
             eq_refl eq_refl).
  - exact (proj2 (proj2 (proj2 (C4_unknown_field_skipped plain_protocol "CurveKeyPair" extra
                                  ks1 [] fs1 fs2 (KnownKeys__init__ None)
                                  (CurveKeyPair__init__ None None) [] 0 Hextra Hks Hfs)
                           Hid1 Hid2))
             (CurveKeyPair__init__ (Some "priv") (Some "pub")) eq_refl).
Defined.



(** C6 (as amended): a read is handed to fastproto exactly when the protocol
    is of an accelerated kind, its transport is a CReadableTransport, and
    both thrift_spec and fastproto are there; a write is handed to fastproto
    exactly when the protocol is of an accelerated kind and both thrift_spec
    and fastproto are there, whatever the transport is.  Otherwise the
    generic code runs. *)
Theorem C6_dispatch {P : Type} {prot : TProtocol P}
    (spec : option thrift_spec_t)
    (fpk : option (Fastproto KnownKeys P)) (fpc : option (Fastproto CurveKeyPair P))
    (dict_items : gmap pystr bytes -> list (pystr * bytes))
    (fuel : nat) (kk : KnownKeys) (ckp : CurveKeyPair) (p : P) :
  let accelerated := accelerated_binary p || accelerated_compact p in
  let protoid := if accelerated_binary p then 0 else 2 in
  KnownKeys_read spec fpk fuel (kk, p)
  = (if accelerated && trans_isinstance_CReadableTransport p
        && is_not_None spec && is_not_None fpk
     then (KnownKeys_fastproto_decode spec fpk protoid ;; KnownKeys_checkRequired) (kk, p)
     else KnownKeys_read_generic fuel (kk, p))
  /\ KnownKeys_write spec fpk dict_items (kk, p)
     = (if accelerated && is_not_None spec && is_not_None fpk
        then KnownKeys_fastproto_encode spec fpk protoid (kk, p)
        else KnownKeys_write_generic dict_items (kk, p))
  /\ CurveKeyPair_read spec fpc fuel (ckp, p)
     = (if accelerated && trans_isinstance_CReadableTransport p
           && is_not_None spec && is_not_None fpc
        then (CurveKeyPair_fastproto_decode spec fpc protoid ;; CurveKeyPair_checkRequired)
               (ckp, p)
        else CurveKeyPair_read_generic fuel (ckp, p))
  /\ CurveKeyPair_write spec fpc (ckp, p)
     = (if accelerated && is_not_None spec && is_not_None fpc
        then CurveKeyPair_fastproto_encode spec fpc protoid (ckp, p)
        else CurveKeyPair_write_generic (ckp, p)).
Proof.
  intros accelerated protoid. unfold accelerated, protoid.
  unfold KnownKeys_read, KnownKeys_write, CurveKeyPair_read, CurveKeyPair_write.
  destruct (accelerated_binary p), (accelerated_compact p),
    (trans_isinstance_CReadableTransport p), (is_not_None spec),
    (is_not_None fpk), (is_not_None fpc); repeat split; reflexivity.
Qed.

(** C6 as stated fails for writes: on a transport that is not a
    CReadableTransport an accelerated binary protocol still hands the write
    to fastproto. *)
Lemma C6_counterexample :
  let c := {| is_TBinaryProtocolAccelerated := true;
              is_TCompactProtocolAccelerated := false;
              is_THeaderProtocolAccelerate := false;
              header_protocol_id := 0;
              trans_is_CReadableTransport := false |} in
  let fp : Fastproto KnownKeys (list item) :=
    {| decode := fun _ _ _ => raise EOFError;
       encode := fun _ _ _ _ => Ok "fast" |} in
  let x := KnownKeys__init__ (Some ∅) in
  let dict_items : gmap pystr bytes -> list (pystr * bytes) := fun _ => [] in
  trans_isinstance_CReadableTransport (TProtocol := ref_protocol c) [] = false
  /\ lists_entries dict_items ∅
  /\ KnownKeys_write (prot := ref_protocol c) KnownKeys_thrift_spec (Some fp) dict_items
       (x, [])
     = Ok (tt, (x, [IRaw "fast"]))
  /\ KnownKeys_write (prot := ref_protocol c) KnownKeys_thrift_spec (Some fp) dict_items
       (x, [])
     <> KnownKeys_write_generic (prot := ref_protocol c) dict_items (x, []).
Proof.
  intros c fp x dict_items. split; [reflexivity |].
  split; [unfold lists_entries, dict_items; now rewrite map_to_list_empty |].
  split; [reflexivity |].
  rewrite KnownKeys_write_generic_ref. discriminate.
Qed.

(** C7: the generic writers send the struct begin, then one entry (header,
    value, end) for each field that is set, field 1 before field 2 whatever
    the order of the assignments, nothing for a field that is unset, and then
    one STOP before the struct end.  The value of the map field is the map
    header with the number of entries of the dict and then its pairs in the
    order in which the dict yields them: the dict with 'a' inserted before
    'b' is sent as a, 1, b, 2. *)
Theorem C7_writer_emits_set_fields (c : protocol_class) (x : CurveKeyPair)
    (dict_items : gmap pystr bytes -> list (pystr * bytes))
    (d : gmap pystr bytes) (a b : bytes) (p : list item) :
  CurveKeyPair_write_generic (prot := ref_protocol c) (x, p)
  = Ok (tt, (x, p ++ [IStructBegin "CurveKeyPair"]
                  ++ match privateKey x with
                     | Some v => [IFieldBegin "privateKey" STRING 1; IString v; IFieldEnd]
                     | None => []
                     end
                  ++ match publicKey x with
                     | Some v => [IFieldBegin "publicKey" STRING 2; IString v; IFieldEnd]
                     | None => []
                     end
                  ++ [IFieldStop; IStructEnd]))
  /\ (CurveKeyPair_set_publicKey (Some b) ;; CurveKeyPair_set_privateKey (Some a) ;;
      CurveKeyPair_write_generic (prot := ref_protocol c)) (x, p)
     = Ok (tt, (CurveKeyPair__init__ (Some a) (Some b),
                p ++ [IStructBegin "CurveKeyPair";
                      IFieldBegin "privateKey" STRING 1; IString a; IFieldEnd;
                      IFieldBegin "publicKey" STRING 2; IString b; IFieldEnd;
                      IFieldStop; IStructEnd]))
  /\ KnownKeys_write_generic (prot := ref_protocol c) dict_items
       (KnownKeys__init__ None, p)
     = Ok (tt, (KnownKeys__init__ None,
                p ++ [IStructBegin "KnownKeys"; IFieldStop; IStructEnd]))
  /\ KnownKeys_write_generic (prot := ref_protocol c) dict_items
       (KnownKeys__init__ (Some d), p)
     = match KnownKeys_wire_pairs (dict_items d) with
       | Some ps =>
           Ok (tt, (KnownKeys__init__ (Some d),
                    p ++ [IStructBegin "KnownKeys"; IFieldBegin "keys" MAP 1;
                          IMapBegin STRING STRING (Z.of_nat (size d))]
                      ++ string_pairs ps
                      ++ [IMapEnd; IFieldEnd; IFieldStop; IStructEnd]))
       | None => Raise UnicodeEncodeError
       end
  /\ (let items := [(PyStr [97%N], "1"); (PyStr [98%N], "2")] in
      KnownKeys_write_generic (prot := ref_protocol c) (fun _ => items)
        (KnownKeys__init__ (Some (list_to_map items)), p)
      = Ok (tt, (KnownKeys__init__ (Some (list_to_map items)),
                 p ++ [IStructBegin "KnownKeys"; IFieldBegin "keys" MAP 1;
                       IMapBegin STRING STRING 2;
                       IString "a"; IString "1"; IString "b"; IString "2";
                       IMapEnd; IFieldEnd; IFieldStop; IStructEnd]))).
Proof.
  split; [| split; [| split; [| split]]]; [| | | | intros items;
    rewrite KnownKeys_write_generic_ref; reflexivity].
  - rewrite CurveKeyPair_write_generic_ref. unfold CurveKeyPair_items, struct_stream.
    destruct x as [[u |] [v |]]; reflexivity.
  - destruct x as [u v]. cbn. unfold bind. cbn. rewrite <- !app_assoc. reflexivity.
  - rewrite KnownKeys_write_generic_ref. reflexivity.
  - rewrite KnownKeys_write_generic_ref. unfold KnownKeys_sent, KnownKeys__init__.
    cbn [keys]. destruct (KnownKeys_wire_pairs (dict_items d)) as [ps |] eqn:Hps;
      [| reflexivity].
    unfold struct_stream, field_entry, map_payload.
    cbn [app]. rewrite <- !app_assoc. reflexivity.
Qed.

(** C8: [__eq__] holds between two instances of a struct exactly when each
    slot of one equals the slot of the other, an unset slot being equal to
    an unset slot only; it compares values, not identities, and an object of
    another class is never equal.  A CurveKeyPair decoded from a stream with
    privateKey only is equal to the instance built with that privateKey. *)
Theorem C8_structural_equality (c : protocol_class) (k1 k2 : KnownKeys)
    (x1 x2 : CurveKeyPair) (pk : bytes) (n : nat) :
  (KnownKeys___eq__ k1 (ObjKnownKeys k2) = true <-> keys k1 = keys k2)
  /\ (CurveKeyPair___eq__ x1 (ObjCurveKeyPair x2) = true
      <-> privateKey x1 = privateKey x2 /\ publicKey x1 = publicKey x2)
  /\ KnownKeys___eq__ k1 (ObjCurveKeyPair x1) = false
  /\ CurveKeyPair___eq__ x1 (ObjKnownKeys k1) = false
  /\ KnownKeys___eq__ k1 ObjOther = false
  /\ CurveKeyPair___eq__ x1 ObjOther = false
  /\ exists y,
      CurveKeyPair_read_generic (prot := ref_protocol c) (S (4 + n))
        (CurveKeyPair__init__ None None,
         [IStructBegin "CurveKeyPair"; IFieldBegin "privateKey" STRING 1; IString pk;
          IFieldEnd; IFieldStop; IStructEnd])
      = Ok (tt, (y, []))
      /\ publicKey y = None
      /\ CurveKeyPair___eq__ y (ObjCurveKeyPair (CurveKeyPair__init__ (Some pk) None)) = true.
Proof.
  split; [| split; [| repeat (split; [reflexivity |])]].
  - cbn. apply bool_decide_eq_true.
  - cbn. rewrite andb_true_iff, !bool_decide_eq_true. reflexivity.
  - exists (CurveKeyPair__init__ (Some pk) None). split; [reflexivity |].
    split; [reflexivity |]. cbn.
    apply andb_true_iff; split; now apply bool_decide_eq_true.
Qed.

(** ** Writing does not touch the instance *)

Lemma preserves_self_bind {Self P A B} (m : M (Self * P) A) (k : A -> M (Self * P) B) :
  preserves_self m -> (forall a, preserves_self (k a)) -> preserves_self (bind m k).
Proof.
  intros Hm Hk self p. unfold bind. specialize (Hm self p).
  destruct (m (self, p)) as [[a [self1 p1]] | e |]; try exact I.
  subst self1. apply Hk.
Qed.

Lemma preserves_self_on_prot {Self P A} (m : M P A) :
  preserves_self (Self := Self) (on_prot m).
Proof. intros self p. unfold on_prot. destruct (m p) as [[a p'] | e |]; easy. Qed.

Lemma preserves_self_ret {Self P A} (a : A) : preserves_self (Self := Self) (P := P) (ret a).
Proof. intros self p. reflexivity. Qed.

Lemma preserves_self_get_self {Self P} : preserves_self (@get_self Self P).
Proof. intros self p. reflexivity. Qed.

Lemma preserves_self_lift_result {Self P A} (r : result A) :
  preserves_self (Self := Self) (P := P) (lift_result r).
Proof. intros self p. destruct r; easy. Qed.

Lemma preserves_self_raise {Self P A} (e : exn) :
  preserves_self (Self := Self) (P := P) (A := A) (raise e).
Proof. intros self p. exact I. Qed.

Lemma preserves_self_for_each {Self P A} (xs : list A) (body : A -> M (Self * P) unit) :
  (forall x, preserves_self (body x)) -> preserves_self (for_each xs body).
Proof.
  intros Hbody. induction xs as [| x xs IH]; cbn [for_each].
  - apply preserves_self_ret.
  - apply preserves_self_bind; [apply Hbody | intros _; exact IH].
Qed.

Create HintDb frame.
#[local] Hint Resolve preserves_self_on_prot preserves_self_ret preserves_self_get_self
  preserves_self_lift_result preserves_self_raise : frame.

Ltac frame :=
  repeat first
    [ apply preserves_self_bind; [| intros ? ]
    | apply preserves_self_for_each; intros ?
    | solve [ auto with frame ]
    | match goal with
      | |- preserves_self (match ?o with _ => _ end) => destruct o
      | |- preserves_self (if ?b then _ else _) => destruct b
      | |- preserves_self (let '(_, _) := ?x in _) => destruct x
      end ].

Section Write_frame.
Context {P : Type} {prot : TProtocol P}.
Variable spec : option thrift_spec_t.

Lemma KnownKeys_write_preserves_self (fp : option (Fastproto KnownKeys P)) dict_items :
  preserves_self (KnownKeys_write spec fp dict_items).
Proof.
  assert (Hgen : preserves_self (KnownKeys_write_generic (prot := prot) dict_items)).
  { unfold KnownKeys_write_generic, KnownKeys_write_entry. frame. }
  assert (Hfast : forall protoid,
             preserves_self (KnownKeys_fastproto_encode spec fp protoid)).
  { intros protoid. unfold KnownKeys_fastproto_encode. frame. }
  intros self p. unfold KnownKeys_write.
  repeat match goal with
         | |- context [if ?b then _ else _] => destruct b
         end; first [apply Hfast | apply Hgen].
Qed.

Lemma CurveKeyPair_write_preserves_self (fp : option (Fastproto CurveKeyPair P)) :
  preserves_self (CurveKeyPair_write spec fp).
Proof.
  assert (Hgen : preserves_self (CurveKeyPair_write_generic (prot := prot))).
  { unfold CurveKeyPair_write_generic. frame. }
  assert (Hfast : forall protoid,
             preserves_self (CurveKeyPair_fastproto_encode spec fp protoid)).
  { intros protoid. unfold CurveKeyPair_fastproto_encode. frame. }
  intros self p. unfold CurveKeyPair_write.
  repeat match goal with
         | |- context [if ?b then _ else _] => destruct b
         end; first [apply Hfast | apply Hgen].
Qed.
End Write_frame.

(** ** Writing appends to the wire *)

Section Write_appends.
Variable c : protocol_class.
Variable spec : option thrift_spec_t.

Lemma KnownKeys_write_appends (fp : option (Fastproto KnownKeys (list item)))
    dict_items x p :
  KnownKeys_write (prot := ref_protocol c) spec fp dict_items (x, p)
  = appending (KnownKeys_write (prot := ref_protocol c) spec fp dict_items (x, [])) p.
Proof.
  assert (Hfast : forall protoid,
             KnownKeys_fastproto_encode (prot := ref_protocol c) spec fp protoid (x, p)
             = appending
                 (KnownKeys_fastproto_encode (prot := ref_protocol c) spec fp protoid (x, []))
                 p).
  { intros protoid. unfold KnownKeys_fastproto_encode.
    destruct fp as [fp |]; [| reflexivity]. destruct spec as [sp |]; [| reflexivity].
    unfold bind, get_self, lift_result.
    destruct (encode fp x sp UTF8STRINGS protoid); reflexivity. }
  unfold KnownKeys_write, accelerated_binary, accelerated_compact.
  cbn [isinstance_TBinaryProtocolAccelerated isinstance_TCompactProtocolAccelerated
    isinstance_THeaderProtocolAccelerate get_protocol_id ref_protocol].
  repeat match goal with
         | |- context [if ?b then _ else _] => destruct b
         end; try apply Hfast.
  rewrite !KnownKeys_write_generic_ref.
  destruct (KnownKeys_sent dict_items x); reflexivity.
Qed.

Lemma CurveKeyPair_write_appends (fp : option (Fastproto CurveKeyPair (list item))) x p :
  CurveKeyPair_write (prot := ref_protocol c) spec fp (x, p)
  = appending (CurveKeyPair_write (prot := ref_protocol c) spec fp (x, [])) p.
Proof.
  assert (Hfast : forall protoid,
             CurveKeyPair_fastproto_encode (prot := ref_protocol c) spec fp protoid (x, p)
             = appending
                 (CurveKeyPair_fastproto_encode (prot := ref_protocol c) spec fp protoid
                    (x, [])) p).
  { intros protoid. unfold CurveKeyPair_fastproto_encode.
    destruct fp as [fp |]; [| reflexivity]. destruct spec as [sp |]; [| reflexivity].
    unfold bind, get_self, lift_result.
    destruct (encode fp x sp UTF8STRINGS protoid); reflexivity. }
  unfold CurveKeyPair_write, accelerated_binary, accelerated_compact.
  cbn [isinstance_TBinaryProtocolAccelerated isinstance_TCompactProtocolAccelerated
    isinstance_THeaderProtocolAccelerate get_protocol_id ref_protocol].
  repeat match goal with
         | |- context [if ?b then _ else _] => destruct b
         end; try apply Hfast.
  rewrite !CurveKeyPair_write_generic_ref. reflexivity.
Qed.
End Write_appends.

(** C9: a write hands the instance back as it was, over any protocol and
    with any fastproto; and on the reference wire a write appends items that
    depend on the instance only, so that two writes in a row append the same
    items twice. *)
Theorem C9_write_is_pure_append {P : Type} {prot : TProtocol P}
    (spec : option thrift_spec_t)
    (fpk : option (Fastproto KnownKeys P)) (fpc : option (Fastproto CurveKeyPair P))
    (rk : option (Fastproto KnownKeys (list item)))
    (rc : option (Fastproto CurveKeyPair (list item)))
    (dict_items : gmap pystr bytes -> list (pystr * bytes))
    (c : protocol_class) (kk : KnownKeys) (ckp : CurveKeyPair)
    (p : P) (q wk wc : list item) :
  KnownKeys_write (prot := ref_protocol c) spec rk dict_items (kk, [])
  = Ok (tt, (kk, wk)) ->
  CurveKeyPair_write (prot := ref_protocol c) spec rc (ckp, []) = Ok (tt, (ckp, wc)) ->
  match KnownKeys_write spec fpk dict_items (kk, p) with
  | Ok (_, (kk', _)) => kk' = kk
  | _ => True
  end
  /\ match CurveKeyPair_write spec fpc (ckp, p) with
     | Ok (_, (ckp', _)) => ckp' = ckp
     | _ => True
     end
  /\ KnownKeys_write (prot := ref_protocol c) spec rk dict_items (kk, q)
     = Ok (tt, (kk, q ++ wk))
  /\ (KnownKeys_write (prot := ref_protocol c) spec rk dict_items ;;
      KnownKeys_write (prot := ref_protocol c) spec rk dict_items) (kk, q)
     = Ok (tt, (kk, q ++ wk ++ wk))
  /\ CurveKeyPair_write (prot := ref_protocol c) spec rc (ckp, q) = Ok (tt, (ckp, q ++ wc))
  /\ (CurveKeyPair_write (prot := ref_protocol c) spec rc ;;
      CurveKeyPair_write (prot := ref_protocol c) spec rc) (ckp, q)
     = Ok (tt, (ckp, q ++ wc ++ wc)).
Proof.
  intros Hk Hc.
  assert (Hk1 : forall q',
             KnownKeys_write (prot := ref_protocol c) spec rk dict_items (kk, q')
             = Ok (tt, (kk, q' ++ wk))).
  { intros q'. rewrite KnownKeys_write_appends, Hk. reflexivity. }
  assert (Hc1 : forall q', CurveKeyPair_write (prot := ref_protocol c) spec rc (ckp, q')
                           = Ok (tt, (ckp, q' ++ wc))).
  { intros q'. rewrite CurveKeyPair_write_appends, Hc. reflexivity. }
  split; [apply KnownKeys_write_preserves_self |].
  split; [apply CurveKeyPair_write_preserves_self |].
  split; [apply Hk1 |]. split.
  - rewrite (bind_Ok _ _ _ _ _ (Hk1 q)), Hk1, <- app_assoc. reflexivity.
  - split; [apply Hc1 |].
    rewrite (bind_Ok _ _ _ _ _ (Hc1 q)), Hc1, <- app_assoc. reflexivity.
Qed.

Lemma C9_write_is_pure_append_witness :
  let items : list (pystr * bytes) := [(PyStr [98%N], "2"); (PyStr [97%N], "1")] in
  let dict_items : gmap pystr bytes -> list (pystr * bytes) := fun _ => items in
  let kk := KnownKeys__init__ (Some (list_to_map items)) in
  let ckp := CurveKeyPair__init__ (Some "priv") None in
  let wk := [IStructBegin "KnownKeys"; IFieldBegin "keys" MAP 1;
             IMapBegin STRING STRING 2; IString "b"; IString "2";
             IString "a"; IString "1"; IMapEnd;
             IFieldEnd; IFieldStop; IStructEnd] in
  let wc := [IStructBegin "CurveKeyPair"; IFieldBegin "privateKey" STRING 1;
             IString "priv"; IFieldEnd; IFieldStop; IStructEnd] in
  KnownKeys_write (prot := ref_protocol plain_protocol) KnownKeys_thrift_spec None
    dict_items (kk, [])
  = Ok (tt, (kk, wk))
  /\ CurveKeyPair_write (prot := ref_protocol plain_protocol) KnownKeys_thrift_spec None
       (ckp, []) = Ok (tt, (ckp, wc))
  /\ (KnownKeys_write (prot := ref_protocol plain_protocol) KnownKeys_thrift_spec None
        dict_items ;;
      KnownKeys_write (prot := ref_protocol plain_protocol) KnownKeys_thrift_spec None
        dict_items)
       (kk, [IRaw "before"])
     = Ok (tt, (kk, [IRaw "before"] ++ wk ++ wk)).
Proof.
  intros items dict_items kk ckp wk wc.
  assert (Hk : KnownKeys_write (prot := ref_protocol plain_protocol)
                 KnownKeys_thrift_spec None dict_items (kk, []) = Ok (tt, (kk, wk))).
  { unfold KnownKeys_write, accelerated_binary, accelerated_compact.
    cbn [isinstance_TBinaryProtocolAccelerated isinstance_TCompactProtocolAccelerated
      isinstance_THeaderProtocolAccelerate get_protocol_id ref_protocol plain_protocol
      is_TBinaryProtocolAccelerated is_TCompactProtocolAccelerated
      is_THeaderProtocolAccelerate orb andb].
    rewrite KnownKeys_write_generic_ref. vm_compute. reflexivity. }
  assert (Hc : CurveKeyPair_write (prot := ref_protocol plain_protocol)
                 KnownKeys_thrift_spec None (ckp, []) = Ok (tt, (ckp, wc)))
    by reflexivity.
  split; [exact Hk |]. split; [exact Hc |].
  exact (proj1 (proj2 (proj2 (proj2
           (C9_write_is_pure_append (prot := ref_protocol plain_protocol)
              KnownKeys_thrift_spec None None None None dict_items plain_protocol kk ckp
              [] [IRaw "before"] wk wc Hk Hc))))).
Defined.

(** C10: whichever path decodes (fastproto for the binary protocol,
    fastproto for the compact protocol, or the generic loop), [read] ends
    with [checkRequired]: when the decoding leaves keys unset the call raises
    the missing-required-field exception, and an instance that [read] hands
    back always has keys set. *)
Theorem C10_every_path_checks_required {P : Type} {prot : TProtocol P}
    (spec : option thrift_spec_t) (fp : option (Fastproto KnownKeys P))
    (fuel : nat) (self : KnownKeys) (iprot : P) :
  let decoding : M (KnownKeys * P) unit :=
    if accelerated_binary iprot && trans_isinstance_CReadableTransport iprot
       && is_not_None spec && is_not_None fp
    then KnownKeys_fastproto_decode spec fp 0
    else if accelerated_compact iprot && trans_isinstance_CReadableTransport iprot
            && is_not_None spec && is_not_None fp
    then KnownKeys_fastproto_decode spec fp 2
    else (on_prot readStructBegin ;; KnownKeys_read_fields fuel ;; on_prot readStructEnd) in
  KnownKeys_read spec fp fuel (self, iprot)
  = match decoding (self, iprot) with
    | Ok (_, (self', iprot')) =>
        match keys self' with
        | Some _ => Ok (tt, (self', iprot'))
        | None =>
            Raise (TProtocolException MISSING_REQUIRED_FIELD
                     "Required field 'keys' was not found in serialized data! Struct: KnownKeys")
        end
    | Raise e => Raise e
    | OutOfFuel => OutOfFuel
    end
  /\ match KnownKeys_read spec fp fuel (self, iprot) with
     | Ok (_, (self', _)) => keys self' <> None
     | _ => True
     end.
Proof.
  intros decoding.
  assert (Hread : KnownKeys_read spec fp fuel (self, iprot)
                  = (decoding ;; KnownKeys_checkRequired) (self, iprot)).
  { unfold KnownKeys_read, decoding, KnownKeys_read_generic.
    repeat match goal with
           | |- context [if ?b then _ else _] => destruct b
           end; try reflexivity.
    unfold bind. destruct (on_prot readStructBegin (self, iprot)) as [[[] s1] | e |];
      try reflexivity.
    destruct (KnownKeys_read_fields fuel s1) as [[[] s2] | e |]; try reflexivity.
  }
  assert (Hcheck : forall s : KnownKeys * P,
             KnownKeys_checkRequired s
             = match keys (fst s) with
               | Some _ => Ok (tt, s)
               | None =>
                   Raise (TProtocolException MISSING_REQUIRED_FIELD
                            "Required field 'keys' was not found in serialized data! Struct: KnownKeys")
               end).
  { intros [[[d |]] p']; reflexivity. }
  assert (Heq : KnownKeys_read spec fp fuel (self, iprot)
                = match decoding (self, iprot) with
                  | Ok (_, (self', iprot')) =>
                      match keys self' with
                      | Some _ => Ok (tt, (self', iprot'))
                      | None =>
                          Raise (TProtocolException MISSING_REQUIRED_FIELD
                                   "Required field 'keys' was not found in serialized data! Struct: KnownKeys")
                      end
                  | Raise e => Raise e
                  | OutOfFuel => OutOfFuel
                  end).
  { rewrite Hread. unfold bind.
    destruct (decoding (self, iprot)) as [[[] [self' iprot']] | e |]; try reflexivity.
    apply Hcheck. }
  split; [exact Heq |].
  rewrite Heq.
  destruct (decoding (self, iprot)) as [[[] [self' iprot']] | e |]; try exact I.
  destruct (keys self') eqn:E; [congruence | exact I].
Qed.

(** * Properties of the link monitor commands *)

Module LMFacts.
Import LM.
Local Open Scope lm_scope.

Ltac lm_run :=
  cbv beta iota delta [bind ret print sys_exit call when getitem negb andb orb
                         stdout calls fst snd].

Lemma contains_lookup {V} (d : gmap string V) (key : string) :
  contains d key = match d !! key with Some _ => true | None => false end.
Proof.
  unfold contains. destruct (d !! key).
  - apply bool_decide_eq_true. eauto.
  - apply bool_decide_eq_false. intros [? ?]. discriminate.
Qed.

(** X1: the node overload command calls the client at most once: it exits
    with status 0 and no call when the node is already in the state asked
    for, returns without a call when the user declines, and otherwise makes
    the one call that matches the request. *)
Theorem toggle_node_overload_bit_calls (links : DumpLinksReply)
    (yesno : string -> bool -> bool) (overload yes : bool) (w : world) :
  let host := thisNodeName links in
  let action := if overload then "set overload bit" else "unset overload bit" in
  let confirmed :=
    yesno ("Are you sure to " ++ action ++ " for node " ++ host ++ " ?")%string yes in
  let r := toggle_node_overload_bit links yesno overload yes w in
  r.1 = (if bool_decide (overload = isOverloaded links)
         then SystemExit 0 else Returned tt)
  /\ calls r.2
     = calls w ++ (if bool_decide (overload = isOverloaded links) then []
                   else if confirmed
                        then [if overload then setNodeOverload else unsetNodeOverload]
                        else []).
Proof.
  intros host action confirmed r. subst r confirmed action host.
  unfold toggle_node_overload_bit.
  destruct overload, (isOverloaded links); cbn;
    try (split; [reflexivity | now rewrite app_nil_r]);
    match goal with |- context [yesno ?q yes] => destruct (yesno q yes) end;
    cbn; split; try reflexivity; now rewrite app_nil_r.
Qed.

(** X2: the link overload command on an interface that the reply does not
    have prints "No such interface" and returns, without exit and without a
    call; on a known interface it exits with status 0 when the link is
    already in the state asked for, and otherwise makes the matching call
    exactly when the user confirms.  A KeyError never escapes. *)
Theorem toggle_link_overload_bit_calls (links : DumpLinksReply)
    (yesno : string -> bool -> bool) (overload yes : bool) (interface : string)
    (w : world) :
  let action := if overload then "set overload bit" else "unset overload bit" in
  let confirmed :=
    yesno ("Are you sure to " ++ action ++ " for interface " ++ interface ++ " ?")%string yes in
  let r := toggle_link_overload_bit links yesno overload interface yes w in
  match interfaceDetails links !! interface with
  | None =>
      r = (Returned tt,
           {| stdout := stdout w ++ [""; ("No such interface: " ++ interface)%string];
              calls := calls w |})
  | Some d =>
      r.1 = (if bool_decide (overload = if_isOverloaded d)
             then SystemExit 0 else Returned tt)
      /\ calls r.2
         = calls w ++ (if bool_decide (overload = if_isOverloaded d) then []
                       else if confirmed
                            then [if overload then setInterfaceOverload interface
                                  else unsetInterfaceOverload interface]
                            else [])
  end.
Proof.
  intros action confirmed r. subst r confirmed action.
  unfold toggle_link_overload_bit, interface_isOverloaded, getitem.
  rewrite contains_lookup.
  destruct (interfaceDetails links !! interface) as [d |] eqn:Hd.
  - destruct overload, (if_isOverloaded d) eqn:Ho; cbn; rewrite ?Hd; cbn; rewrite ?Ho; cbn;
      try (split; [reflexivity | now rewrite app_nil_r]);
      match goal with |- context [yesno ?q yes] => destruct (yesno q yes) end;
      cbn; split; try reflexivity; now rewrite app_nil_r.
  - lm_run. rewrite <- app_assoc. reflexivity.
Qed.

(** X3: the node metric increment command exits with status 0 on a negative
    increment, is a no-op exactly when the increment asked for is the current
    one (0 meaning none), and otherwise exits when the user declines or makes
    one call: unset for 0, set for a positive increment. *)
Theorem toggle_node_metric_inc_calls (links : DumpLinksReply)
    (yesno : string -> bool -> bool) (metric_inc : Z) (yes : bool) (w : world) :
  let host := thisNodeName links in
  let action :=
    if metric_inc =? 0 then "unset node metric inc" else "set node metric inc" in
  let confirmed :=
    yesno ("Are you sure to " ++ action ++ " for node " ++ host ++ " ?")%string yes in
  let r := toggle_node_metric_inc links yesno metric_inc yes w in
  r.1 = (if metric_inc <? 0 then SystemExit 0
         else if nodeMetricIncrementVal links =? metric_inc then Returned tt
         else if confirmed then Returned tt else SystemExit 0)
  /\ calls r.2
     = calls w ++ (if (0 <=? metric_inc)
                      && negb (nodeMetricIncrementVal links =? metric_inc)
                      && confirmed
                   then [if metric_inc =? 0 then unsetNodeInterfaceMetricIncrement
                         else setNodeInterfaceMetricIncrement metric_inc]
                   else []).
Proof.
  intros host action confirmed r. subst r confirmed action host.
  unfold toggle_node_metric_inc, truthy.
  destruct (Z.ltb_spec metric_inc 0) as [Hneg | Hpos].
  - assert ((0 <=? metric_inc) = false) as -> by lia.
    lm_run. split; [reflexivity | now rewrite app_nil_r].
  - assert ((0 <=? metric_inc) = true) as -> by lia.
    destruct (Z.eqb_spec metric_inc 0) as [-> | Hnz].
    + destruct (nodeMetricIncrementVal links =? 0) eqn:Hval; lm_run.
      * split; [reflexivity | now rewrite app_nil_r].
      * match goal with |- context [yesno ?q yes] => destruct (yesno q yes) end;
          lm_run; split; try reflexivity; now rewrite app_nil_r.
    + destruct (nodeMetricIncrementVal links =? metric_inc) eqn:Hval; lm_run.
      * split; [reflexivity | now rewrite app_nil_r].
      * match goal with |- context [yesno ?q yes] => destruct (yesno q yes) end;
          lm_run; split; try reflexivity; now rewrite app_nil_r.
Qed.

(** X4: the link metric increment command exits with status 0 on a negative
    increment and on an interface that the reply does not have; on a known
    interface it is a no-op exactly when the increment asked for is the
    current one of the link, and otherwise exits when the user declines or
    makes one call: unset for 0, set for a positive increment. *)
Theorem toggle_link_metric_inc_calls (links : DumpLinksReply)
    (yesno : string -> bool -> bool) (interface : string) (metric_inc : Z)
    (yes : bool) (w : world) :
  let host := thisNodeName links in
  let action :=
    if metric_inc =? 0 then "unset link metric inc" else "set link metric inc" in
  let confirmed :=
    yesno ("Are you sure to " ++ action ++ " for link " ++ interface
           ++ " on node " ++ host ++ " ?")%string yes in
  let r := toggle_link_metric_inc links yesno interface metric_inc yes w in
  match interfaceDetails links !! interface with
  | None => r.1 = SystemExit 0 /\ calls r.2 = calls w
  | Some d =>
      r.1 = (if metric_inc <? 0 then SystemExit 0
             else if linkMetricIncrementVal d =? metric_inc then Returned tt
             else if confirmed then Returned tt else SystemExit 0)
      /\ calls r.2
         = calls w ++ (if (0 <=? metric_inc)
                          && negb (linkMetricIncrementVal d =? metric_inc)
                          && confirmed
                       then [if metric_inc =? 0
                             then unsetInterfaceMetricIncrement interface
                             else setInterfaceMetricIncrement interface metric_inc]
                       else [])
  end.
Proof.
  intros host action confirmed r. subst r confirmed action host.
  unfold toggle_link_metric_inc, truthy, interface_linkMetricIncrementVal.
  rewrite contains_lookup.
  destruct (interfaceDetails links !! interface) as [d |] eqn:Hd.
  - destruct (Z.ltb_spec metric_inc 0) as [Hneg | Hpos].
    + assert ((0 <=? metric_inc) = false) as -> by lia.
      lm_run. split; [reflexivity | now rewrite app_nil_r].
    + assert ((0 <=? metric_inc) = true) as -> by lia.
      destruct (Z.eqb_spec metric_inc 0) as [-> | Hnz].
      * lm_run. rewrite Hd.
        destruct (linkMetricIncrementVal d =? 0) eqn:Hval; lm_run.
        -- split; [reflexivity | now rewrite app_nil_r].
        -- match goal with |- context [yesno ?q yes] => destruct (yesno q yes) end;
             lm_run; split; try reflexivity; now rewrite app_nil_r.
      * lm_run. rewrite Hd.
        destruct (linkMetricIncrementVal d =? metric_inc) eqn:Hval; lm_run.
        -- split; [reflexivity | now rewrite app_nil_r].
        -- match goal with |- context [yesno ?q yes] => destruct (yesno q yes) end;
             lm_run; split; try reflexivity; now rewrite app_nil_r.
  - destruct (metric_inc <? 0); lm_run; split; reflexivity.
Qed.

Lemma check_link_overriden_result (links : DumpLinksReply) (interface : string)
    (metric : Z) (w : world) :
  check_link_overriden links interface metric w
  = (match interfaceDetails links !! interface with
     | None => KeyError interface
     | Some d =>
         Returned (match metricOverride d with
                   | None => None
                   | Some n => if n =? 0 then None else Some (n =? metric)
                   end)
     end, w).
Proof.
  unfold check_link_overriden, getitem, truthy_opt, truthy.
  destruct (interfaceDetails links !! interface) as [d |]; [| reflexivity].
  lm_run. destruct (metricOverride d) as [n |]; [| reflexivity].
  destruct (n =? 0); [reflexivity |]. cbn. do 3 f_equal.
  destruct (Z.eqb_spec n metric) as [-> | Hne].
  - now apply bool_decide_eq_true.
  - apply bool_decide_eq_false. congruence.
Qed.

(** X5: [check_link_overriden] raises KeyError on an interface that the reply
    does not have; it gives [None] when the override of the interface is
    unset and also when it is 0, and otherwise tells whether the override is
    the metric asked about.  It prints nothing and calls nothing. *)
Theorem check_link_overriden_cases (links : DumpLinksReply) (interface : string)
    (metric : Z) (w : world) :
  check_link_overriden links interface metric w
  = (match interfaceDetails links !! interface with
     | None => KeyError interface
     | Some d =>
         Returned (match metricOverride d with
                   | None => None
                   | Some n => if n =? 0 then None else Some (n =? metric)
                   end)
     end, w).
Proof. apply check_link_overriden_result. Qed.

(** X6: the metric override command on a known interface, an override of 0
    counting as none: asked to unset, it exits with status 0 and no call when
    there is no override, and otherwise unsets on confirmation; asked to set,
    it exits with status 0 and no call when the override is already the
    metric asked for, and otherwise sets on confirmation.  On an unknown
    interface it returns without a call. *)
Theorem toggle_link_metric_calls (links : DumpLinksReply)
    (yesno : string -> bool -> bool) (override : bool) (interface : string)
    (metric : Z) (yes : bool) (w : world) :
  let action := if override then "set override metric" else "unset override metric" in
  let confirmed :=
    yesno ("Are you sure to " ++ action ++ " for interface " ++ interface ++ " ?")%string
      yes in
  let r := toggle_link_metric links yesno override interface metric yes w in
  match interfaceDetails links !! interface with
  | None => r.1 = Returned tt /\ calls r.2 = calls w
  | Some d =>
      let current :=
        match metricOverride d with
        | Some n => if n =? 0 then None else Some n
        | None => None
        end in
      let nothing_to_do :=
        if override then bool_decide (current = Some metric)
        else bool_decide (current = None) in
      r.1 = (if nothing_to_do then SystemExit 0 else Returned tt)
      /\ calls r.2
         = calls w ++ (if negb nothing_to_do && confirmed
                       then [if override then setInterfaceMetric interface metric
                             else unsetInterfaceMetric interface]
                       else [])
  end.
Proof.
  intros action confirmed r. subst r confirmed action.
  unfold toggle_link_metric. rewrite contains_lookup.
  destruct (interfaceDetails links !! interface) as [d |] eqn:Hd.
  - cbv beta iota zeta.
    lm_run. rewrite check_link_overriden_result, Hd.
    destruct (metricOverride d) as [n |];
      [destruct (Z.eqb_spec n 0) as [-> | Hn]; [| destruct (Z.eqb_spec n metric)] |];
      destruct override; cbn [is_not_None];
      repeat match goal with
             | |- context [@bool_decide ?P ?D] => destruct (@bool_decide_reflect P D)
             end;
      try congruence;
      lm_run;
      try (match goal with |- context [yesno ?q yes] => destruct (yesno q yes) end;
           lm_run);
      (split; [reflexivity | now rewrite ?app_nil_r]).
  - lm_run. split; reflexivity.
Qed.

Ltac lm_finish yesno yes :=
  lm_run;
  try (match goal with |- context [yesno ?q yes] => destruct (yesno q yes) end; lm_run);
  first [ left; reflexivity | right; reflexivity ].

(** X7: the commands that set make no unset call and the commands that
    clear or unset make no set call; each of them calls the client at most
    once. *)
Theorem run_methods_call_once (links : DumpLinksReply) (yesno : string -> bool -> bool)
    (interface : string) (yes : bool) (w : world) :
  let after (c : cmd unit) := calls (c w).2 in
  (after (SetNodeOverloadCmd_run links yesno yes) = calls w
   \/ after (SetNodeOverloadCmd_run links yesno yes) = calls w ++ [setNodeOverload])
  /\ (after (UnsetNodeOverloadCmd_run links yesno yes) = calls w
      \/ after (UnsetNodeOverloadCmd_run links yesno yes) = calls w ++ [unsetNodeOverload])
  /\ (after (SetLinkOverloadCmd_run links yesno interface yes) = calls w
      \/ after (SetLinkOverloadCmd_run links yesno interface yes)
         = calls w ++ [setInterfaceOverload interface])
  /\ (after (UnsetLinkOverloadCmd_run links yesno interface yes) = calls w
      \/ after (UnsetLinkOverloadCmd_run links yesno interface yes)
         = calls w ++ [unsetInterfaceOverload interface])
  /\ (after (ClearNodeMetricCmd_run links yesno yes) = calls w
      \/ after (ClearNodeMetricCmd_run links yesno yes)
         = calls w ++ [unsetNodeInterfaceMetricIncrement])
  /\ (after (ClearLinkMetricCmd_run links yesno interface yes) = calls w
      \/ after (ClearLinkMetricCmd_run links yesno interface yes)
         = calls w ++ [unsetInterfaceMetricIncrement interface])
  /\ (after (UnsetLinkMetricCmd_run links yesno interface yes) = calls w
      \/ after (UnsetLinkMetricCmd_run links yesno interface yes)
         = calls w ++ [unsetInterfaceMetric interface]).
Proof.
  intros after. subst after. cbv beta.
  unfold SetNodeOverloadCmd_run, UnsetNodeOverloadCmd_run, SetLinkOverloadCmd_run,
    UnsetLinkOverloadCmd_run, ClearNodeMetricCmd_run, ClearLinkMetricCmd_run,
    UnsetLinkMetricCmd_run.
  repeat split.
  - unfold toggle_node_overload_bit. destruct (isOverloaded links); lm_finish yesno yes.
  - unfold toggle_node_overload_bit. destruct (isOverloaded links); lm_finish yesno yes.
  - unfold toggle_link_overload_bit, interface_isOverloaded. rewrite contains_lookup.
    destruct (interfaceDetails links !! interface) as [d |] eqn:Hd;
      [| lm_finish yesno yes].
    lm_run. rewrite Hd. destruct (if_isOverloaded d); lm_finish yesno yes.
  - unfold toggle_link_overload_bit, interface_isOverloaded. rewrite contains_lookup.
    destruct (interfaceDetails links !! interface) as [d |] eqn:Hd;
      [| lm_finish yesno yes].
    lm_run. rewrite Hd. destruct (if_isOverloaded d); lm_finish yesno yes.
  - unfold toggle_node_metric_inc, truthy. change (0 <? 0) with false.
    change (0 =? 0) with true.
    destruct (nodeMetricIncrementVal links =? 0); lm_finish yesno yes.
  - unfold toggle_link_metric_inc, truthy, interface_linkMetricIncrementVal.
    rewrite contains_lookup. change (0 <? 0) with false. change (0 =? 0) with true.
    destruct (interfaceDetails links !! interface) as [d |] eqn:Hd;
      [| lm_finish yesno yes].
    lm_run. rewrite Hd. destruct (linkMetricIncrementVal d =? 0); lm_finish yesno yes.
  - unfold toggle_link_metric. rewrite contains_lookup.
    destruct (interfaceDetails links !! interface) as [d |] eqn:Hd;
      [| lm_finish yesno yes].
    lm_run. rewrite check_link_overriden_result, Hd.
    destruct (metricOverride d) as [n |]; [destruct (n =? 0) |];
      cbn [is_not_None]; lm_finish yesno yes.
Qed.

(** X8: the adjacency metric commands call the client without asking for a
    confirmation and whatever [yes] is; a command given a metric that is not
    an integer ends with ValueError before it prints or calls anything. *)
Theorem run_methods_parse_and_adjacency (links : DumpLinksReply)
    (yesno : string -> bool -> bool) (int_of_str : string -> option Z)
    (node interface metric : string) (yes : bool) (w : world) :
  ClearAdjMetricOverrideCmd_run node interface yes w
  = (Returned tt,
     {| stdout := stdout w; calls := calls w ++ [unsetAdjacencyMetric interface node] |})
  /\ match int_of_str metric with
     | Some n =>
         OverrideAdjMetricCmd_run int_of_str node interface metric yes w
         = (Returned tt,
            {| stdout := stdout w;
               calls := calls w ++ [setAdjacencyMetric interface node n] |})
     | None =>
         OverrideAdjMetricCmd_run int_of_str node interface metric yes w = (ValueError, w)
         /\ IncreaseNodeMetricCmd_run links yesno int_of_str metric yes w = (ValueError, w)
         /\ IncreaseLinkMetricCmd_run links yesno int_of_str interface metric yes w
            = (ValueError, w)
         /\ SetLinkMetricCmd_run links yesno int_of_str interface metric yes w
            = (ValueError, w)
     end.
Proof.
  split; [reflexivity |].
  unfold OverrideAdjMetricCmd_run, IncreaseNodeMetricCmd_run, IncreaseLinkMetricCmd_run,
    SetLinkMetricCmd_run, int.
  destruct (int_of_str metric); [reflexivity | repeat split; reflexivity].
Qed.

(** ** Tables *)

#[local] Instance item_le_total {V} : Total (@item_le V).
Proof. intros p q. unfold item_le. apply String.leb_total. Qed.

Lemma suppressed_lookup (d : gmap string InterfaceDetails) (k : string)
    (v : InterfaceDetails) :
  suppressed d !! k = Some v
  <-> d !! k = Some v /\ exists n, linkFlapBackOffMs v = Some n /\ n <> 0.
Proof.
  unfold suppressed. rewrite map_lookup_filter_Some. cbn.
  unfold truthy_opt, truthy. split; intros [Hk Hv]; (split; [exact Hk |]).
  - destruct (linkFlapBackOffMs v) as [n |]; [| discriminate].
    exists n. split; [reflexivity |]. destruct (Z.eqb_spec n 0); [discriminate | assumption].
  - destruct Hv as (n & -> & Hn). destruct (Z.eqb_spec n 0); [contradiction | reflexivity].
Qed.

(** X9: the links command never calls the client and never exits: it prints
    one line and returns.  With [only_suppressed] what it shows is built from
    exactly the interfaces whose back-off is set and not 0, and else from all
    the interfaces of the reply; in the JSON form no table is rendered. *)
Theorem LMLinksCmd_run_shows (is_color_output_supported : bool)
    (click_style : string -> string -> string) (sprint_addr : bytes -> string)
    (int_truediv : Z -> Z -> Z)
    (render_horizontal_table : list (list cell) -> list string -> option string -> string)
    (links_json : DumpLinksReply -> string) (links : DumpLinksReply)
    (only_suppressed json : bool) (w : world) :
  let run :=
    LMLinksCmd_run is_color_output_supported click_style sprint_addr int_truediv
      render_horizontal_table links_json links in
  let shown :=
    if only_suppressed then suppressed (interfaceDetails links)
    else interfaceDetails links in
  (forall k v, suppressed (interfaceDetails links) !! k = Some v
     <-> interfaceDetails links !! k = Some v
         /\ exists n, linkFlapBackOffMs v = Some n /\ n <> 0)
  /\ exists line,
      run only_suppressed json w
      = (Returned tt, {| stdout := stdout w ++ [line]; calls := calls w |})
      /\ if json
         then line = links_json
                       {| thisNodeName := thisNodeName links;
                          isOverloaded := isOverloaded links;
                          interfaceDetails := shown;
                          nodeMetricIncrementVal := nodeMetricIncrementVal links |}
         else exists caption,
             line = render_horizontal_table
                      (build_table_rows is_color_output_supported click_style sprint_addr
                         int_truediv shown)
                      ["Interface"; "Status"; "Metric Override"; "Addresses"]
                      (Some caption).
Proof.
  intros run shown. split; [intros k v; apply suppressed_lookup |].
  subst run shown. unfold LMLinksCmd_run, print_links_json, print_links_table.
  destruct links as [name over details inc].
  destruct only_suppressed, json; cbn [thisNodeName isOverloaded interfaceDetails
    nodeMetricIncrementVal];
    eexists; (split; [reflexivity |]); try reflexivity; eexists; reflexivity.
Qed.

Lemma build_table_rows_fold color style sprint truediv l : forall rows,
  fold_left (build_table_rows_step color style sprint truediv) l rows
  = rows ++ flat_map (fun kv : string * InterfaceDetails =>
                        <[3%nat := CellStr ""]> (build_table_row color style sprint truediv
                                                   kv.1 kv.2)
                        :: map (fun prefix =>
                                  [CellStr ""; CellStr ""; CellStr "";
                                   CellStr (sprint (addr (prefixAddress prefix)))])
                             (networks (info kv.2))) l.
Proof.
  induction l as [| kv l IH]; intros rows; cbn [fold_left flat_map].
  - now rewrite app_nil_r.
  - rewrite IH. unfold build_table_rows_step at 1.
    cbn. rewrite <- !app_assoc. cbn. rewrite map_map. reflexivity.
Qed.

(** X10: the rows of the table come in blocks, one block for each interface
    of the dict and in the order of the interface names: the row of the
    interface with its address cell emptied, then one row for each of its
    addresses, holding the address in the fourth cell.  Every row has four
    cells. *)
Theorem build_table_rows_blocks (is_color_output_supported : bool)
    (click_style : string -> string -> string) (sprint_addr : bytes -> string)
    (int_truediv : Z -> Z -> Z) (interfaces : gmap string InterfaceDetails) :
  let row := build_table_row is_color_output_supported click_style sprint_addr int_truediv in
  let rows :=
    build_table_rows is_color_output_supported click_style sprint_addr int_truediv
      interfaces in
  exists items,
    items ≡ₚ map_to_list interfaces
    /\ Sorted item_le items
    /\ rows = flat_map (fun kv : string * InterfaceDetails =>
                          <[3%nat := CellStr ""]> (row kv.1 kv.2)
                          :: map (fun prefix =>
                                    [CellStr ""; CellStr ""; CellStr "";
                                     CellStr (sprint_addr (addr (prefixAddress prefix)))])
                               (networks (info kv.2))) items
    /\ Forall (fun r => List.length r = 4%nat) rows.
Proof.
  intros row rows. exists (sorted_items interfaces). subst row rows.
  assert (Hrows := build_table_rows_fold is_color_output_supported click_style sprint_addr
                     int_truediv (sorted_items interfaces) []).
  cbn [app] in Hrows. unfold build_table_rows. rewrite Hrows.
  split; [apply merge_sort_Permutation |].
  split; [apply Sorted_merge_sort; apply _ |].
  split; [reflexivity |].
  apply Forall_flat_map. apply Forall_forall. intros kv _.
  apply Forall_cons_2; [reflexivity |].
  apply Forall_fmap. apply Forall_forall. intros prefix _. reflexivity.
Qed.

(** ** Validation *)

Lemma passes_regex_check_exists validate_regexes areas interface :
  passes_regex_check validate_regexes areas interface = true
  <-> exists area, area ∈ areas
        /\ (validate_regexes (include_interface_regexes area) [interface] true
            || validate_regexes (redistribute_interface_regexes area) [interface] true)
           && validate_regexes (exclude_interface_regexes area) [interface] false = true.
Proof.
  induction areas as [| area areas IH]; cbn [passes_regex_check].
  - split; [discriminate | intros (area & Hin & _); inversion Hin].
  - destruct ((validate_regexes (include_interface_regexes area) [interface] true
               || validate_regexes (redistribute_interface_regexes area) [interface] true)
              && validate_regexes (exclude_interface_regexes area) [interface] false)
      eqn:Harea.
    + split; [intros _ | reflexivity]. exists area. split; [left | exact Harea].
    + rewrite IH. split; intros (a & Hin & Ha).
      * exists a. split; [now right | exact Ha].
      * exists a. split; [| exact Ha].
        apply elem_of_cons in Hin as [-> | Hin]; [congruence | exact Hin].
Qed.

Lemma invalid_interfaces_loop_elem validate_regexes areas interfaces :
  forall acc k,
    k ∈ invalid_interfaces_loop validate_regexes areas interfaces acc
    <-> k ∈ acc
        \/ (k ∈ interfaces /\ passes_regex_check validate_regexes areas k = false).
Proof.
  induction interfaces as [| i interfaces IH]; intros acc k;
    cbn [invalid_interfaces_loop].
  - split; [now left | intros [H | [H _]]; [exact H | inversion H]].
  - rewrite IH.
    destruct (passes_regex_check validate_regexes areas i) eqn:Hi; cbn [negb].
    + split; (intros [H | [H Hk]]; [now left | right]).
      * split; [now right | exact Hk].
      * apply elem_of_cons in H as [-> | H]; [congruence | now split].
    + rewrite elem_of_union, elem_of_singleton.
      split.
      * intros [[H | ->] | [H Hk]]; [now left | right | right].
        -- split; [left | exact Hi].
        -- split; [now right | exact Hk].
      * intros [H | [H Hk]]; [now left; left |].
        apply elem_of_cons in H as [-> | H]; [left; now right | right; now split].
Qed.

Lemma dict_of_keys_result {V} (d : gmap string V) (keys : list string) (w : world) :
  (forall k, k ∈ keys -> is_Some (d !! k)) ->
  exists m,
    dict_of_keys d keys w = (Returned m, w)
    /\ forall k v, m !! k = Some v <-> k ∈ keys /\ d !! k = Some v.
Proof.
  induction keys as [| key keys IH]; intros Hkeys; cbn [dict_of_keys].
  - exists ∅. split; [reflexivity |]. intros k v. rewrite lookup_empty.
    split; [discriminate | intros [H _]; inversion H].
  - destruct (Hkeys key) as [x Hx]; [left |].
    destruct IH as (m & Hm & Hlookup); [intros k Hk; apply Hkeys; now right |].
    exists (<[key := x]> m). split.
    + unfold getitem. rewrite Hx. lm_run. rewrite Hm. reflexivity.
    + intros k v. destruct (decide (k = key)) as [-> | Hne].
      * rewrite lookup_insert_eq. split.
        -- intros [= <-]. split; [left | exact Hx].
        -- intros [_ Hv]. congruence.
      * rewrite lookup_insert_ne by congruence. rewrite Hlookup.
        split; intros [Hin Hv]; (split; [| exact Hv]).
        -- now right.
        -- apply elem_of_cons in Hin as [-> | Hin]; [contradiction | exact Hin].
Qed.

(** X11: the interface validation gives back, with their details, exactly
    the interfaces of the reply that pass the regexes of no area, an
    interface passing those of an area when it matches the include or the
    redistribute regexes and passes the exclude ones.  It calls and prints
    nothing, and no KeyError escapes; without any area every interface is
    given back. *)
Theorem validate_interface_regex_result
    (validate_regexes : list string -> list string -> bool -> bool)
    (links : DumpLinksReply) (areas : list AreaConfig) (w : world) :
  exists invalid,
    _validate_interface_regex validate_regexes links areas w = (Returned invalid, w)
    /\ (forall k v,
          invalid !! k = Some v
          <-> interfaceDetails links !! k = Some v
              /\ ~ exists area, area ∈ areas
                    /\ (validate_regexes (include_interface_regexes area) [k] true
                        || validate_regexes (redistribute_interface_regexes area) [k] true)
                       && validate_regexes (exclude_interface_regexes area) [k] false
                       = true)
    /\ (areas = [] -> invalid = interfaceDetails links).
Proof.
  unfold _validate_interface_regex.
  set (keys := (map_to_list (interfaceDetails links)).*1).
  set (bad := invalid_interfaces_loop validate_regexes areas keys ∅).
  assert (Hbad : forall k, k ∈ elements bad
                   <-> is_Some (interfaceDetails links !! k)
                       /\ passes_regex_check validate_regexes areas k = false).
  { intros k. rewrite elem_of_elements. unfold bad.
    rewrite invalid_interfaces_loop_elem. unfold keys.
    rewrite list_elem_of_fmap.
    split.
    - intros [H | [([k' v] & -> & Hin) Hk]]; [set_solver |].
      apply elem_of_map_to_list in Hin. split; [eauto | exact Hk].
    - intros [[v Hv] Hk]. right. split; [| exact Hk].
      exists (k, v). split; [reflexivity | now apply elem_of_map_to_list]. }
  destruct (dict_of_keys_result (interfaceDetails links) (elements bad) w)
    as (m & Hm & Hlookup).
  { intros k Hk. now apply Hbad in Hk as [Hsome _]. }
  assert (Hspec : forall k v,
             m !! k = Some v
             <-> interfaceDetails links !! k = Some v
                 /\ passes_regex_check validate_regexes areas k = false).
  { intros k v. rewrite Hlookup, Hbad. split.
    - intros [[_ Hk] Hv]. now split.
    - intros [Hv Hk]. split; [split; [eauto | exact Hk] | exact Hv]. }
  exists m. split; [exact Hm |]. split.
  - intros k v. rewrite Hspec, <- passes_regex_check_exists.
    destruct (passes_regex_check validate_regexes areas k); split; intros [Hv Hk];
      (split; [exact Hv |]); congruence.
  - intros ->. apply map_eq. intros k. apply option_eq. intros v.
    rewrite Hspec. cbn. split; [now intros [Hv _] | now split].
Qed.

(** ** What a command reports *)

Ltac lm_report yesno yes :=
  lm_run;
  try (match goal with |- context [yesno ?q yes] => destruct (yesno q yes) end; lm_run);
  cbn [fresh_world stdout calls app];
  (split;
   [ intros (line & Hline & Hprefix); cbn in Hline;
     first [ discriminate Hline
           | injection Hline as <-; cbn in Hprefix; first [discriminate Hprefix | discriminate] ]
   | intros Hcalls; first [ now contradiction Hcalls
                          | eexists; split; reflexivity ] ]).

(** X21: a command that starts with nothing printed ends with a line that
    begins with "Successfully" exactly when it has called the client. *)
Theorem toggles_report_success (links : DumpLinksReply) (yesno : string -> bool -> bool)
    (overload override yes : bool) (interface : string) (metric_inc metric : Z) :
  let reports (r : outcome unit * world) :=
    exists line, last (stdout r.2) = Some line
                 /\ String.prefix "Successfully" line = true in
  let called (r : outcome unit * world) := calls r.2 <> [] in
  (reports (toggle_node_overload_bit links yesno overload yes fresh_world)
   <-> called (toggle_node_overload_bit links yesno overload yes fresh_world))
  /\ (reports (toggle_link_overload_bit links yesno overload interface yes fresh_world)
      <-> called (toggle_link_overload_bit links yesno overload interface yes fresh_world))
  /\ (reports (toggle_node_metric_inc links yesno metric_inc yes fresh_world)
      <-> called (toggle_node_metric_inc links yesno metric_inc yes fresh_world))
  /\ (reports (toggle_link_metric_inc links yesno interface metric_inc yes fresh_world)
      <-> called (toggle_link_metric_inc links yesno interface metric_inc yes fresh_world))
  /\ (reports (toggle_link_metric links yesno override interface metric yes fresh_world)
      <-> called (toggle_link_metric links yesno override interface metric yes fresh_world)).
Proof.
  intros reports called. subst reports called. cbv beta.
  split; [| split; [| split; [| split]]].
  - unfold toggle_node_overload_bit.
    destruct overload, (isOverloaded links); lm_report yesno yes.
  - unfold toggle_link_overload_bit, interface_isOverloaded. rewrite contains_lookup.
    destruct (interfaceDetails links !! interface) as [d |] eqn:Hd;
      [| lm_report yesno yes].
    lm_run. rewrite Hd. destruct overload, (if_isOverloaded d); lm_report yesno yes.
  - unfold toggle_node_metric_inc, truthy.
    destruct (metric_inc <? 0); [lm_report yesno yes |].
    destruct (metric_inc =? 0), (nodeMetricIncrementVal links =? metric_inc),
      (nodeMetricIncrementVal links =? 0); lm_report yesno yes.
  - unfold toggle_link_metric_inc, truthy, interface_linkMetricIncrementVal.
    rewrite contains_lookup.
    destruct (metric_inc <? 0); [lm_report yesno yes |].
    destruct (interfaceDetails links !! interface) as [d |] eqn:Hd;
      [| lm_report yesno yes].
    lm_run. rewrite Hd.
    destruct (metric_inc =? 0), (linkMetricIncrementVal d =? metric_inc),
      (linkMetricIncrementVal d =? 0); lm_report yesno yes.
  - unfold toggle_link_metric. rewrite contains_lookup.
    destruct (interfaceDetails links !! interface) as [d |] eqn:Hd;
      [| lm_report yesno yes].
    lm_run. rewrite check_link_overriden_result, Hd.
    destruct (metricOverride d) as [n |];
      [destruct (n =? 0); [| destruct (n =? metric)] |];
      destruct override; cbn [is_not_None]; lm_report yesno yes.
Qed.
End LMFacts.

(** * More properties of the struct codec *)

Lemma KnownKeys_absorb_app fs1 : forall fs2 self,
  KnownKeys_absorb (fs1 ++ fs2) self
  = match KnownKeys_absorb fs1 self with
    | Ok self1 => KnownKeys_absorb fs2 self1
    | Raise e => Raise e
    | OutOfFuel => OutOfFuel
    end.
Proof.
  induction fs1 as [| [name ktype vtype size pairs | f] fs1 IH]; intros fs2 self;
    cbn [app KnownKeys_absorb]; [reflexivity | | apply IH].
  destruct (KnownKeys_entries pairs ∅); [apply IH | reflexivity | reflexivity].
Qed.

Lemma KnownKeys_entries_app ps1 : forall ps2 d,
  KnownKeys_entries (ps1 ++ ps2) d
  = match KnownKeys_entries ps1 d with
    | Ok d1 => KnownKeys_entries ps2 d1
    | Raise e => Raise e
    | OutOfFuel => OutOfFuel
    end.
Proof.
  induction ps1 as [| [k v] ps1 IH]; intros ps2 d; cbn [app KnownKeys_entries];
    [reflexivity |].
  destruct (bytes_decode_utf8 k); [apply IH | reflexivity | reflexivity].
Qed.

Lemma KnownKeys_entries_other ps s : forall d d',
  Forall (fun kv : bytes * bytes => bytes_decode_utf8 kv.1 <> Ok s) ps ->
  KnownKeys_entries ps d = Ok d' ->
  d' !! PyStr s = d !! PyStr s.
Proof.
  induction ps as [| [k v] ps IH]; intros d d' Hps; cbn [KnownKeys_entries].
  - now intros [= <-].
  - apply Forall_cons in Hps as [Hk Hps]. cbn in Hk.
    destruct (bytes_decode_utf8 k) as [s' | e |] eqn:Hdec; try discriminate.
    intros Hent. rewrite (IH _ _ Hps Hent).
    apply lookup_insert_ne. congruence.
Qed.

Lemma bytes_decode_utf8_Raise b e : bytes_decode_utf8 b = Raise e -> e = UnicodeDecodeError.
Proof.
  unfold bytes_decode_utf8. destruct (utf8_decode_list (list_of_bytes b)); congruence.
Qed.

Lemma KnownKeys_entries_undecodable ps : forall d,
  Exists (fun kv : bytes * bytes => utf8_decode_list (list_of_bytes kv.1) = None) ps ->
  KnownKeys_entries ps d = Raise UnicodeDecodeError.
Proof.
  induction ps as [| [k v] ps IH]; intros d Hps; [inversion Hps |].
  cbn [KnownKeys_entries].
  destruct (bytes_decode_utf8 k) as [s | e |] eqn:Hdec.
  - apply Exists_cons in Hps as [Hk | Hps]; [| now apply IH].
    cbn in Hk. unfold bytes_decode_utf8 in Hdec. rewrite Hk in Hdec. discriminate.
  - now rewrite (bytes_decode_utf8_Raise _ _ Hdec).
  - unfold bytes_decode_utf8 in Hdec.
    destruct (utf8_decode_list (list_of_bytes k)); discriminate.
Qed.

Lemma KnownKeys_wire_pairs_unencodable kvs :
  Exists (fun kv : pystr * bytes =>
            exists s, kv.1 = PyStr s /\ utf8_encode_list s = None) kvs ->
  KnownKeys_wire_pairs kvs = None.
Proof.
  induction kvs as [| [[s | b] v] kvs IH]; intros Hex; [inversion Hex | |];
    cbn [KnownKeys_wire_pairs]; apply Exists_cons in Hex as [Hk | Hex].
  - destruct Hk as (s' & [= <-] & ->). reflexivity.
  - rewrite (IH Hex). now destruct (utf8_encode_list s).
  - destruct Hk as (s' & [=] & _).
  - now rewrite (IH Hex).
Qed.

Lemma KnownKeys_keys_stream name fname ktype vtype size pairs :
  struct_stream name (field_entry fname MAP 1 (map_payload ktype vtype size pairs))
  = struct_stream name (KnownKeys_fields_items [KeysField fname ktype vtype size pairs]).
Proof.
  unfold KnownKeys_fields_items. cbn [flat_map KnownKeys_field_items].
  now rewrite app_nil_r.
Qed.

Lemma KnownKeys_fields_items_app fs1 fs2 :
  KnownKeys_fields_items (fs1 ++ fs2)
  = KnownKeys_fields_items fs1 ++ KnownKeys_fields_items fs2.
Proof. unfold KnownKeys_fields_items. apply flat_map_app. Qed.

(** X12: an entry for field 1 replaces what earlier entries for field 1 gave:
    when a stream is decoded with success, the same stream with one more map
    entry for field 1 at its end decodes to the pairs of that last map only. *)
Theorem KnownKeys_read_last_keys_entry_wins (c : protocol_class) (name fname : string)
    (ks : list KnownKeys_field) (ktype vtype : TType) (size : Z)
    (pairs : list (bytes * bytes)) (self self1 : KnownKeys) (rest : list item) (n : nat) :
  Forall KnownKeys_field_ok ks ->
  size_ok size (List.length pairs) ->
  KnownKeys_read_generic (prot := ref_protocol c)
    (S (List.length (KnownKeys_fields_items ks) + n))
    (self, struct_stream name (KnownKeys_fields_items ks) ++ rest)
  = Ok (tt, (self1, rest)) ->
  let last := KeysField fname ktype vtype size pairs in
  KnownKeys_read_generic (prot := ref_protocol c)
    (S (List.length (KnownKeys_fields_items (ks ++ [last])) + n))
    (self, struct_stream name (KnownKeys_fields_items (ks ++ [last])) ++ rest)
  = match KnownKeys_entries pairs ∅ with
    | Ok d => Ok (tt, ({| keys := Some d |}, rest))
    | Raise e => Raise e
    | OutOfFuel => OutOfFuel
    end.
Proof.
  intros Hks Hsize Hread last.
  rewrite KnownKeys_read_generic_ref in Hread by (trivial; lia).
  rewrite KnownKeys_read_generic_ref.
  - rewrite KnownKeys_absorb_app.
    destruct (KnownKeys_absorb ks self) as [s1 | e |]; try discriminate.
    subst last. cbn [KnownKeys_absorb].
    destruct (KnownKeys_entries pairs ∅); reflexivity.
  - apply Forall_app. split; [exact Hks |].
    apply Forall_cons_2; [exact Hsize | apply Forall_nil_2].
  - lia.
Qed.

Lemma KnownKeys_read_last_keys_entry_wins_witness :
  let ks := [KeysField "keys" STRING STRING 2 [("a", "x"); ("b", "y")]] in
  let last := KeysField "keys" STRING STRING 1 [("c", "z")] in
  Forall KnownKeys_field_ok ks
  /\ size_ok 1 1
  /\ KnownKeys_read_generic (prot := ref_protocol plain_protocol)
       (S (List.length (KnownKeys_fields_items (ks ++ [last])) + 0))
       (KnownKeys__init__ None,
        struct_stream "KnownKeys" (KnownKeys_fields_items (ks ++ [last])) ++ [])
     = Ok (tt, ({| keys := Some {[ PyStr [99%N] := "z" ]} |}, [])).
Proof.
  intros ks last.
  assert (Hks : Forall KnownKeys_field_ok ks).
  { apply Forall_cons_2; [now left | apply Forall_nil_2]. }
  assert (Hsize : size_ok 1 1) by now left.
  split; [exact Hks |]. split; [exact Hsize |].
  exact (KnownKeys_read_last_keys_entry_wins plain_protocol "KnownKeys" "keys" ks
           STRING STRING 1 [("c", "z")] (KnownKeys__init__ None)
           {| keys := Some {[ PyStr [98%N] := "y"; PyStr [97%N] := "x" ]} |} [] 0
           Hks Hsize eq_refl).
Defined.

(** X13: in a map on the wire the last pair of a key wins: when the decoding
    succeeds, the decoded map holds, for the [str] that a key decodes to, the
    value of the last pair with that key. *)
Theorem KnownKeys_read_duplicate_key_last_wins (c : protocol_class) (name fname : string)
    (ktype vtype : TType) (size : Z) (ps1 ps2 : list (bytes * bytes)) (k v : bytes)
    (s : text) (self y : KnownKeys) (rest rest' : list item) (n : nat) :
  let pairs := ps1 ++ (k, v) :: ps2 in
  let stream :=
    struct_stream name (field_entry fname MAP 1 (map_payload ktype vtype size pairs)) in
  size_ok size (List.length pairs) ->
  bytes_decode_utf8 k = Ok s ->
  Forall (fun kv : bytes * bytes => bytes_decode_utf8 kv.1 <> Ok s) ps2 ->
  KnownKeys_read_generic (prot := ref_protocol c) (S (List.length stream + n))
    (self, stream ++ rest) = Ok (tt, (y, rest')) ->
  exists d, keys y = Some d /\ d !! PyStr s = Some v.
Proof.
  intros pairs stream Hsize Hk Hps2 Hread. subst stream.
  rewrite KnownKeys_keys_stream in Hread.
  rewrite KnownKeys_read_generic_ref in Hread.
  - cbn [KnownKeys_absorb] in Hread.
    destruct (KnownKeys_entries pairs ∅) as [d | e |] eqn:Hent; try discriminate.
    cbn [keys] in Hread. injection Hread as <- _. exists d. split; [reflexivity |].
    unfold pairs in Hent. rewrite KnownKeys_entries_app in Hent.
    destruct (KnownKeys_entries ps1 ∅) as [d1 | e |]; try discriminate.
    cbn [KnownKeys_entries] in Hent. rewrite Hk in Hent.
    rewrite (KnownKeys_entries_other _ _ _ _ Hps2 Hent).
    apply lookup_insert_eq.
  - apply Forall_cons_2; [exact Hsize | apply Forall_nil_2].
  - unfold struct_stream, KnownKeys_fields_items. cbn [flat_map List.length].
    rewrite !length_app. cbn [List.length]. lia.
Qed.

Lemma KnownKeys_read_duplicate_key_last_wins_witness :
  let ps2 := [("b", "other")] in
  let pairs := [("a", "first")] ++ ("a", "second") :: ps2 in
  let stream :=
    struct_stream "KnownKeys" (field_entry "keys" MAP 1 (map_payload STRING STRING 3 pairs)) in
  let y : KnownKeys :=
    {| keys := Some {[ PyStr [98%N] := "other"; PyStr [97%N] := "second" ]} |} in
  size_ok 3 (List.length pairs)
  /\ bytes_decode_utf8 "a" = Ok [97%N]
  /\ Forall (fun kv : bytes * bytes => bytes_decode_utf8 kv.1 <> Ok [97%N]) ps2
  /\ KnownKeys_read_generic (prot := ref_protocol plain_protocol)
       (S (List.length stream + 0)) (KnownKeys__init__ None, stream ++ [])
     = Ok (tt, (y, []))
  /\ exists d, keys y = Some d /\ d !! PyStr [97%N] = Some "second".
Proof.
  intros ps2 pairs stream y.
  assert (Hsize : size_ok 3 (List.length pairs)) by now left.
  assert (Hk : bytes_decode_utf8 "a" = Ok [97%N]) by reflexivity.
  assert (Hps2 : Forall (fun kv : bytes * bytes => bytes_decode_utf8 kv.1 <> Ok [97%N])
                   ps2).
  { apply Forall_cons_2; [discriminate | apply Forall_nil_2]. }
  assert (Hread : KnownKeys_read_generic (prot := ref_protocol plain_protocol)
                    (S (List.length stream + 0)) (KnownKeys__init__ None, stream ++ [])
                  = Ok (tt, (y, []))) by reflexivity.
  split; [exact Hsize |]. split; [exact Hk |]. split; [exact Hps2 |].
  split; [exact Hread |].
  exact (KnownKeys_read_duplicate_key_last_wins plain_protocol "KnownKeys" "keys"
           STRING STRING 3 [("a", "first")] ps2 "a" "second" [97%N]
           (KnownKeys__init__ None) y [] [] 0 Hsize Hk Hps2 Hread).
Defined.

(** X14: a key on the wire that is not valid UTF-8 makes the generic reader
    raise UnicodeDecodeError, with a counted map as with a map ended by the
    peek. *)
Theorem KnownKeys_read_undecodable_key (c : protocol_class) (name fname : string)
    (ktype vtype : TType) (size : Z) (pairs : list (bytes * bytes))
    (self : KnownKeys) (rest : list item) (n : nat) :
  let stream :=
    struct_stream name (field_entry fname MAP 1 (map_payload ktype vtype size pairs)) in
  size_ok size (List.length pairs) ->
  Exists (fun kv : bytes * bytes => utf8_decode_list (list_of_bytes kv.1) = None) pairs ->
  KnownKeys_read_generic (prot := ref_protocol c) (S (List.length stream + n))
    (self, stream ++ rest) = Raise UnicodeDecodeError.
Proof.
  intros stream Hsize Hex. subst stream.
  rewrite KnownKeys_keys_stream, KnownKeys_read_generic_ref.
  - cbn [KnownKeys_absorb]. now rewrite KnownKeys_entries_undecodable.
  - apply Forall_cons_2; [exact Hsize | apply Forall_nil_2].
  - unfold struct_stream, KnownKeys_fields_items. cbn [flat_map List.length].
    rewrite !length_app. cbn [List.length]. lia.
Qed.

Lemma KnownKeys_read_undecodable_key_witness :
  let pairs := [("ok", "x"); (bytes_of_list [255%N], "y")] in
  let stream :=
    struct_stream "KnownKeys"
      (field_entry "keys" MAP 1 (map_payload STRING STRING (-1) pairs)) in
  size_ok (-1) (List.length pairs)
  /\ Exists (fun kv : bytes * bytes => utf8_decode_list (list_of_bytes kv.1) = None) pairs
  /\ KnownKeys_read_generic (prot := ref_protocol plain_protocol)
       (S (List.length stream + 0)) (KnownKeys__init__ None, stream ++ [])
     = Raise UnicodeDecodeError.
Proof.
  intros pairs stream.
  assert (Hsize : size_ok (-1) (List.length pairs)) by (right; lia).
  assert (Hex : Exists (fun kv : bytes * bytes =>
                          utf8_decode_list (list_of_bytes kv.1) = None) pairs).
  { apply Exists_cons_tl. apply Exists_cons_hd. reflexivity. }
  split; [exact Hsize |]. split; [exact Hex |].
  exact (KnownKeys_read_undecodable_key plain_protocol "KnownKeys" "keys" STRING STRING
           (-1) pairs (KnownKeys__init__ None) [] 0 Hsize Hex).
Defined.

(** X15: the generic reader of KnownKeys does not reset the instance: on a
    stream in which no entry is a map for field 1 (entries of other ids, or
    of id 1 with another wire type), keys stays as it was, so the call
    succeeds on an instance whose keys was set before and raises the
    missing-required-field exception on one whose keys was unset. *)
Theorem KnownKeys_read_keeps_keys (c : protocol_class) (name : string)
    (ws : list wire_field) (self : KnownKeys) (rest : list item) (n : nat) :
  Forall wire_field_ok ws ->
  Forall (fun f => wf_id f <> 1 \/ wf_type f <> MAP) ws ->
  KnownKeys_read_generic (prot := ref_protocol c)
    (S (List.length (wire_fields_items ws) + n))
    (self, struct_stream name (wire_fields_items ws) ++ rest)
  = match keys self with
    | Some _ => Ok (tt, (self, rest))
    | None =>
        Raise (TProtocolException MISSING_REQUIRED_FIELD
                 "Required field 'keys' was not found in serialized data! Struct: KnownKeys")
    end.
Proof.
  intros Hws Hids.
  rewrite <- KnownKeys_fields_items_others, KnownKeys_read_generic_ref.
  - now rewrite KnownKeys_absorb_others.
  - apply Forall_fmap. apply Forall_forall. intros f Hf. cbn.
    rewrite Forall_forall in Hws, Hids. split; [now apply Hws | now apply Hids].
  - lia.
Qed.

Lemma KnownKeys_read_keeps_keys_witness :
  let ws := [ {| wf_name := "keys"; wf_type := STRING; wf_id := 1;
                 wf_payload := [IString "not a map"] |} ] in
  let self := KnownKeys__init__ (Some {[ PyStr [97%N] := "x" ]}) in
  Forall wire_field_ok ws
  /\ Forall (fun f => wf_id f <> 1 \/ wf_type f <> MAP) ws
  /\ KnownKeys_read_generic (prot := ref_protocol plain_protocol)
       (S (List.length (wire_fields_items ws) + 0))
       (self, struct_stream "KnownKeys" (wire_fields_items ws) ++ [])
     = Ok (tt, (self, [])).
Proof.
  intros ws self.
  assert (Hws : Forall wire_field_ok ws).
  { apply Forall_cons_2; [apply payload_string | apply Forall_nil_2]. }
  assert (Hids : Forall (fun f => wf_id f <> 1 \/ wf_type f <> MAP) ws).
  { apply Forall_cons_2; [right; discriminate | apply Forall_nil_2]. }
  split; [exact Hws |]. split; [exact Hids |].
  exact (KnownKeys_read_keeps_keys plain_protocol "KnownKeys" ws self [] 0 Hws Hids).
Defined.

(** X16: the generic reader of CurveKeyPair does not reset the instance
    either: a field without an entry of its id keeps the value that the
    instance had before the call. *)
Theorem CurveKeyPair_read_keeps_absent_fields (c : protocol_class) (name : string)
    (fs : list wire_field) (self : CurveKeyPair) (rest : list item) (n : nat) :
  Forall wire_field_ok fs ->
  exists y,
    CurveKeyPair_read_generic (prot := ref_protocol c) (S (List.length fs + n))
      (self, struct_stream name (wire_fields_items fs) ++ rest) = Ok (tt, (y, rest))
    /\ (Forall (fun f => wf_id f <> 1) fs -> privateKey y = privateKey self)
    /\ (Forall (fun f => wf_id f <> 2) fs -> publicKey y = publicKey self).
Proof.
  intros Hfs. eexists.
  split; [apply CurveKeyPair_read_generic_ref; [exact Hfs | lia] |].
  split; intros Hno.
  - now apply CurveKeyPair_absorb_privateKey.
  - now apply CurveKeyPair_absorb_publicKey.
Qed.

Lemma CurveKeyPair_read_keeps_absent_fields_witness :
  let fs := [ {| wf_name := "publicKey"; wf_type := STRING; wf_id := 2;
                 wf_payload := [IString "new"] |} ] in
  let self := CurveKeyPair__init__ (Some "old private") (Some "old public") in
  Forall wire_field_ok fs
  /\ exists y,
      CurveKeyPair_read_generic (prot := ref_protocol plain_protocol)
        (S (List.length fs + 0))
        (self, struct_stream "CurveKeyPair" (wire_fields_items fs) ++ [])
      = Ok (tt, (y, []))
      /\ (Forall (fun f => wf_id f <> 1) fs -> privateKey y = privateKey self)
      /\ (Forall (fun f => wf_id f <> 2) fs -> publicKey y = publicKey self).
Proof.
  intros fs self.
  assert (Hfs : Forall wire_field_ok fs).
  { apply Forall_cons_2; [apply payload_string | apply Forall_nil_2]. }
  split; [exact Hfs |].
  exact (CurveKeyPair_read_keeps_absent_fields plain_protocol "CurveKeyPair" fs self [] 0
           Hfs).
Defined.

(** X17: the generic writer of KnownKeys raises UnicodeEncodeError when a
    [str] key of the map cannot be encoded in UTF-8 (a lone surrogate),
    wherever the dict yields that key. *)
Theorem KnownKeys_write_unencodable_key (c : protocol_class)
    (dict_items : gmap pystr bytes -> list (pystr * bytes)) (d : gmap pystr bytes)
    (s : text) (v : bytes) (p : list item) :
  lists_entries dict_items d ->
  d !! PyStr s = Some v ->
  utf8_encode_list s = None ->
  KnownKeys_write_generic (prot := ref_protocol c) dict_items
    (KnownKeys__init__ (Some d), p)
  = Raise UnicodeEncodeError.
Proof.
  intros Hl Hk Hs. rewrite KnownKeys_write_generic_ref.
  unfold KnownKeys_sent, KnownKeys__init__. cbn [keys].
  rewrite KnownKeys_wire_pairs_unencodable; [reflexivity |].
  apply Exists_exists. exists (PyStr s, v). split.
  - unfold lists_entries in Hl. rewrite Hl. now apply elem_of_map_to_list.
  - exists s. now split.
Qed.

Lemma KnownKeys_write_unencodable_key_witness :
  let items : list (pystr * bytes) := [(PyStr [97%N], "1"); (PyStr [55296%N], "x")] in
  let d : gmap pystr bytes := list_to_map items in
  let dict_items : gmap pystr bytes -> list (pystr * bytes) := fun _ => items in
  lists_entries dict_items d
  /\ d !! PyStr [55296%N] = Some "x"
  /\ utf8_encode_list [55296%N] = None
  /\ KnownKeys_write_generic (prot := ref_protocol plain_protocol) dict_items
       (KnownKeys__init__ (Some d), []) = Raise UnicodeEncodeError.
Proof.
  intros items d dict_items.
  assert (Hl : lists_entries dict_items d).
  { unfold lists_entries, dict_items, d. symmetry. apply map_to_list_to_map.
    cbn. apply NoDup_cons_2; [| apply NoDup_singleton].
    intros Hin. apply list_elem_of_singleton in Hin. discriminate. }
  assert (Hk : d !! PyStr [55296%N] = Some "x") by reflexivity.
  assert (Hs : utf8_encode_list [55296%N] = None) by reflexivity.
  split; [exact Hl |]. split; [exact Hk |]. split; [exact Hs |].
  exact (KnownKeys_write_unencodable_key plain_protocol dict_items d [55296%N] "x" []
           Hl Hk Hs).
Defined.

(** X18: the generic reader of KnownKeys does not look at the key and value
    wire types that the map header declares: with the same pairs, two headers
    that differ in these types only are decoded alike. *)
Theorem KnownKeys_read_ignores_declared_types (c : protocol_class) (name fname : string)
    (ktype1 vtype1 ktype2 vtype2 : TType) (size : Z) (pairs : list (bytes * bytes))
    (self : KnownKeys) (rest : list item) (n : nat) :
  size_ok size (List.length pairs) ->
  let stream ktype vtype :=
    struct_stream name (field_entry fname MAP 1 (map_payload ktype vtype size pairs)) in
  KnownKeys_read_generic (prot := ref_protocol c)
    (S (List.length (stream ktype1 vtype1) + n)) (self, stream ktype1 vtype1 ++ rest)
  = KnownKeys_read_generic (prot := ref_protocol c)
      (S (List.length (stream ktype2 vtype2) + n)) (self, stream ktype2 vtype2 ++ rest).
Proof.
  intros Hsize stream. subst stream. cbv beta.
  rewrite !KnownKeys_keys_stream, !KnownKeys_read_generic_ref; try reflexivity;
    try (apply Forall_cons_2; [exact Hsize | apply Forall_nil_2]);
    unfold struct_stream, KnownKeys_fields_items; cbn [flat_map List.length];
    rewrite !length_app; cbn [List.length]; lia.
Qed.

Lemma KnownKeys_read_ignores_declared_types_witness :
  let pairs := [("a", "x")] in
  let stream ktype vtype :=
    struct_stream "KnownKeys" (field_entry "keys" MAP 1 (map_payload ktype vtype 1 pairs)) in
  size_ok 1 (List.length pairs)
  /\ KnownKeys_read_generic (prot := ref_protocol plain_protocol)
       (S (List.length (stream I32 STRUCT) + 0))
       (KnownKeys__init__ None, stream I32 STRUCT ++ [])
     = KnownKeys_read_generic (prot := ref_protocol plain_protocol)
         (S (List.length (stream STRING STRING) + 0))
         (KnownKeys__init__ None, stream STRING STRING ++ []).
Proof.
  intros pairs stream.
  assert (Hsize : size_ok 1 (List.length pairs)) by now left.
  split; [exact Hsize |].
  exact (KnownKeys_read_ignores_declared_types plain_protocol "KnownKeys" "keys"
           I32 STRUCT STRING STRING 1 pairs (KnownKeys__init__ None) [] 0 Hsize).
Defined.

(** X19: a reader leaves the wire right after its struct, so that structs
    written one after the other are read back one after the other: a
    KnownKeys with encodable [str] keys followed by a CurveKeyPair, written
    by the generic writers, are decoded in turn by the generic readers into
    the instances written, and nothing is left. *)
Theorem generic_codec_back_to_back (c : protocol_class)
    (dict_items : gmap pystr bytes -> list (pystr * bytes)) (d : gmap pystr bytes)
    (x : CurveKeyPair) (n : nat) :
  lists_entries dict_items d ->
  text_keys d ->
  exists w1 w,
    KnownKeys_write_generic (prot := ref_protocol c) dict_items
      (KnownKeys__init__ (Some d), [])
    = Ok (tt, (KnownKeys__init__ (Some d), w1))
    /\ CurveKeyPair_write_generic (prot := ref_protocol c) (x, w1) = Ok (tt, (x, w))
    /\ exists rest,
        KnownKeys_read_generic (prot := ref_protocol c) (S (List.length w + n))
          (KnownKeys__init__ None, w)
        = Ok (tt, (KnownKeys__init__ (Some d), rest))
        /\ CurveKeyPair_read_generic (prot := ref_protocol c) (S (List.length rest + n))
             (CurveKeyPair__init__ None None, rest)
           = Ok (tt, (x, [])).
Proof.
  intros Hl Hd.
  destruct (KnownKeys_text_keys_sent (dict_items d) d Hl Hd) as (ps & Hps & Hlen & Hent).
  exists (KnownKeys_items (Some ps)), (KnownKeys_items (Some ps) ++ CurveKeyPair_items x).
  split; [| split].
  - rewrite KnownKeys_write_generic_ref. unfold KnownKeys_sent, KnownKeys__init__.
    cbn [keys]. rewrite Hps. unfold KnownKeys_items. now rewrite Hlen.
  - apply CurveKeyPair_write_generic_ref.
  - exists (CurveKeyPair_items x). split.
    + unfold KnownKeys_items at 2.
      change (field_entry "keys" MAP 1
                (map_payload STRING STRING (Z.of_nat (List.length ps)) ps))
        with (KnownKeys_field_items
                (KeysField "keys" STRING STRING (Z.of_nat (List.length ps)) ps)).
      rewrite <- (app_nil_r (KnownKeys_field_items _)).
      change (KnownKeys_field_items ?f ++ []) with (KnownKeys_fields_items [f]).
      rewrite KnownKeys_read_generic_ref.
      * cbn [KnownKeys_absorb]. now rewrite Hent.
      * apply Forall_cons_2; [now left | apply Forall_nil_2].
      * unfold KnownKeys_items, struct_stream, KnownKeys_fields_items. cbn [flat_map].
        rewrite app_nil_r. cbn [KnownKeys_field_items]. rewrite !length_app.
        cbn [List.length]. rewrite !length_app. lia.
    + apply CurveKeyPair_round_trip.
Qed.

Lemma generic_codec_back_to_back_witness :
  let a : pystr * bytes := (PyStr [110; 111; 100; 101; 65]%N, "key") in
  let b : pystr * bytes := (PyStr [110; 111; 100; 101; 66]%N, "other") in
  let d : gmap pystr bytes := list_to_map [b; a] in
  let dict_items : gmap pystr bytes -> list (pystr * bytes) := fun _ => [b; a] in
  let x := CurveKeyPair__init__ (Some "priv") (Some "pub") in
  lists_entries dict_items d
  /\ text_keys d
  /\ exists w1 w,
      KnownKeys_write_generic (prot := ref_protocol plain_protocol) dict_items
        (KnownKeys__init__ (Some d), [])
      = Ok (tt, (KnownKeys__init__ (Some d), w1))
      /\ CurveKeyPair_write_generic (prot := ref_protocol plain_protocol) (x, w1)
         = Ok (tt, (x, w))
      /\ exists rest,
          KnownKeys_read_generic (prot := ref_protocol plain_protocol)
            (S (List.length w + 0)) (KnownKeys__init__ None, w)
          = Ok (tt, (KnownKeys__init__ (Some d), rest))
          /\ CurveKeyPair_read_generic (prot := ref_protocol plain_protocol)
               (S (List.length rest + 0)) (CurveKeyPair__init__ None None, rest)
             = Ok (tt, (x, [])).
Proof.
  intros a b d dict_items x.
  assert (Hl : lists_entries dict_items d).
  { unfold lists_entries, dict_items, d. symmetry. apply map_to_list_to_map.
    cbn. apply NoDup_cons_2; [| apply NoDup_singleton].
    intros Hin. apply list_elem_of_singleton in Hin. discriminate. }
  assert (Hd : text_keys d).
  { intros k v Hk. apply elem_of_list_to_map_2 in Hk. unfold a, b in Hk.
    apply elem_of_cons in Hk as [Hk | Hk];
      [| apply elem_of_cons in Hk as [Hk | Hk]; [| inversion Hk]];
      injection Hk as -> ->; (eexists; split; [reflexivity | discriminate]). }
  split; [exact Hl |]. split; [exact Hd |].
  exact (generic_codec_back_to_back plain_protocol dict_items d x 0 Hl Hd).
Defined.
